(** * Fundscope: the ranking and alert-detection engine

    A shallow embedding of [backend/engine/ranking.py] (functions
    [assign_deciles], [assign_quartiles], [assign_ranks] and [rank_sector])
    together with the properties the specification states about it.

    Modelling conventions.
    - A Python [float] that is finite is a rational number ([Q]); the value
      [nan] is kept apart, since [bool(nan)] is [True] and [pd.notna(nan)] is
      [False].
    - A performance record carries the keys [fund_id], [fund_name],
      [return_1m], [return_3m] and [return_6m], each return being [None] or
      a float, as the acquisition layer produces them.
    - A pandas [Series] or column over the default [RangeIndex] is a list;
      the label of an entry is its position.
    - [pd.DataFrame(performances)] infers the dtype of a column: a column
      of [None]s only stays an [object] column, any other return column is
      [float64] and holds [nan] where the record held [None].
    - A nullable [Int64] entry is an [option Z], [None] standing for [pd.NA].
    - [np.ceil(ranks / n * 10)] is computed in exact rational arithmetic;
      ranks are integers between 1 and [n], for which the double-precision
      result has the same ceiling.
    - [rank(ascending=False, method="first")] is the position in a stable
      descending sort; [nlargest(3, col)] keeps the first three entries of
      that sort and raises [TypeError] on a column of dtype [object], the
      only exception [rank_sector] can raise on such records.
    - [week_date.isoformat()] is taken as a string supplied by the caller;
      the two loops that append to [alerts] and [rankings] are a map over
      the rows followed by a concatenation. *)

From Stdlib Require Import ZArith QArith Qround Lia Lqa.
From stdpp Require Import base option list sorting gmap strings pretty.

Close Scope Q_scope.
Local Open Scope Z_scope.

(** ** Data model *)

Inductive period := P1m | P3m | P6m.

#[global] Instance period_eq_dec : EqDecision period.
Proof. solve_decision. Defined.

Definition periods : list period := [P1m; P3m; P6m].

(** The value of a [return_*] key of a performance record. *)
Inductive pyfloat := PyNone | PyNaN | PyNum (q : Q).

Module Perf.
Record t := mk {
  fund_id : string;
  fund_name : string;
  return_1m : pyfloat;
  return_3m : pyfloat;
  return_6m : pyfloat
}.
Definition ret (p : period) (x : t) : pyfloat :=
  match p with
  | P1m => return_1m x
  | P3m => return_3m x
  | P6m => return_6m x
  end.
End Perf.

(** A row of the prior snapshot.  A field is [None] when the key is absent
    from the dict or holds [None]; the code reads both through
    [prev.get(key, d) or d]. *)
Module Prior.
Record t := mk {
  fund_id : string;
  decile_1m : option Z; decile_3m : option Z; decile_6m : option Z;
  quartile_1m : option Z; quartile_3m : option Z; quartile_6m : option Z;
  streak_1m : option Z; streak_3m : option Z; streak_6m : option Z
}.
Definition decile (p : period) (x : t) : option Z :=
  match p with P1m => decile_1m x | P3m => decile_3m x | P6m => decile_6m x end.
Definition quartile (p : period) (x : t) : option Z :=
  match p with P1m => quartile_1m x | P3m => quartile_3m x | P6m => quartile_6m x end.
Definition streak (p : period) (x : t) : option Z :=
  match p with P1m => streak_1m x | P3m => streak_3m x | P6m => streak_6m x end.
End Prior.

Module Ranking.
Record t := mk {
  fund_id : string;
  sector_code : string;
  week_date : string;
  decile_1m : option Z; decile_3m : option Z; decile_6m : option Z;
  quartile_1m : option Z; quartile_3m : option Z; quartile_6m : option Z;
  rank_1m : option Z; rank_3m : option Z; rank_6m : option Z;
  total_in_sector : Z;
  streak_1m : Z; streak_3m : Z; streak_6m : Z
}.
Definition decile (p : period) (x : t) : option Z :=
  match p with P1m => decile_1m x | P3m => decile_3m x | P6m => decile_6m x end.
Definition quartile (p : period) (x : t) : option Z :=
  match p with P1m => quartile_1m x | P3m => quartile_3m x | P6m => quartile_6m x end.
Definition rank (p : period) (x : t) : option Z :=
  match p with P1m => rank_1m x | P3m => rank_3m x | P6m => rank_6m x end.
Definition streak (p : period) (x : t) : Z :=
  match p with P1m => streak_1m x | P3m => streak_3m x | P6m => streak_6m x end.
End Ranking.

Module Alert.
Record t := mk {
  fund_id : string;
  sector_code : string;
  week_date : string;
  alert_type : string;
  period_ : period;
  prev_decile : Z;
  curr_decile : option Z;
  streak_broken : Z;
  return_value : pyfloat
}.
End Alert.

Module Top3.
Record t := mk {
  rank : Z;
  fund_id : string;
  fund_name : string;
  sector_code : string;
  sector_name : string;
  return_6m : Q;
  return_3m : option Q;
  return_1m : option Q
}.
End Top3.

Record SectorResult := mkResult {
  rankings : list Ranking.t;
  alerts : list Alert.t;
  top3 : list Top3.t;
  use_quartiles : bool;
  n_funds : Z
}.

(** The exception the engine raises on the records of the model.  Every
    producer of performance records in the repository (the API parser, the
    HTML parser and the mock generator of [trustnet.py]) writes the keys
    [fund_id], [fund_name], [return_1m], [return_3m] and [return_6m], so a
    record is a [Perf.t]; a dict without one of these keys, on which the
    code raises [KeyError], is not a value of the model. *)
Inductive pyexn := TypeError.

Inductive outcome (A : Type) :=
  | Ok (a : A)
  | Raise (e : pyexn).
Arguments Ok {A} a.
Arguments Raise {A} e.

(** ** The pandas operations the engine uses *)

(** [pd.notna] on a scalar. *)
Definition notna (v : pyfloat) : bool :=
  match v with PyNum _ => true | _ => false end.

Inductive dtype := dt_object | dt_float64.

Definition is_None (v : pyfloat) : bool :=
  match v with PyNone => true | _ => false end.

(** [pd.DataFrame(list_of_dicts)] infers the dtype of each column: a column
    holding only [None] stays an [object] column of [None]s; as soon as one
    entry is a float the column is [float64] and every [None] becomes
    [nan]. *)
Definition infer_dtype (raw : list pyfloat) : dtype :=
  if forallb is_None raw then dt_object else dt_float64.

Definition none_to_nan (v : pyfloat) : pyfloat :=
  match v with PyNone => PyNaN | _ => v end.

Definition make_column (raw : list pyfloat) : list pyfloat :=
  match infer_dtype raw with
  | dt_object => raw
  | dt_float64 => none_to_nan <$> raw
  end.

(** [series.dropna()]: the surviving entries with their labels. *)
Fixpoint dropna_from (k : nat) (s : list pyfloat) : list (nat * Q) :=
  match s with
  | [] => []
  | PyNum q :: s' => (k, q) :: dropna_from (S k) s'
  | _ :: s' => dropna_from (S k) s'
  end.

Definition dropna (s : list pyfloat) : list (nat * Q) := dropna_from 0 s.

(** Stable descending sort on the value: an entry is inserted in front of
    the first entry whose value is not larger, hence in front of the later
    entries of equal value. *)
Fixpoint insert_desc (x : nat * Q) (l : list (nat * Q)) : list (nat * Q) :=
  match l with
  | [] => [x]
  | y :: l' => if Qle_bool y.2 x.2 then x :: l else y :: insert_desc x l'
  end.

Definition sort_desc (l : list (nat * Q)) : list (nat * Q) :=
  foldr insert_desc [] l.

(** [valid.rank(ascending=False, method="first")], as (label, rank). *)
Definition rank_first_desc (valid : list (nat * Q)) : list (nat * Z) :=
  imap (λ pos x, (x.1, Z.of_nat pos + 1)) (sort_desc valid).

(** [pd.Series(pd.NA, index=series.index, dtype="Int64")]. *)
Definition NA_series (len : nat) : list (option Z) := replicate len None.

(** [result = NA_series; result[valid.index] = vals]. *)
Definition assign_at (len : nat) (vals : list (nat * Z)) : list (option Z) :=
  (λ i, (list_to_map vals : gmap nat Z) !! i) <$> seq 0 len.

Definition clip (lo hi x : Z) : Z := Z.min hi (Z.max lo x).

(** [np.ceil(rank / n * k)]. *)
Definition ceil_scaled (rank : Z) (n : nat) (k : Z) : Z :=
  Qceiling (inject_Z rank / inject_Z (Z.of_nat n) * inject_Z k)%Q.

(** ** The three assigners *)

Definition assign_deciles (series : list pyfloat) : list (option Z) :=
  let valid := dropna series in
  if (length valid <? 2)%nat then NA_series (length series)
  else
    let ranks := rank_first_desc valid in
    let n := length valid in
    let deciles := (λ ir, (ir.1, clip 1 10 (ceil_scaled ir.2 n 10))) <$> ranks in
    assign_at (length series) deciles.

Definition assign_quartiles (series : list pyfloat) : list (option Z) :=
  let valid := dropna series in
  if (length valid <? 2)%nat then NA_series (length series)
  else
    let ranks := rank_first_desc valid in
    let n := length valid in
    let quartiles := (λ ir, (ir.1, clip 1 4 (ceil_scaled ir.2 n 4))) <$> ranks in
    assign_at (length series) quartiles.

Definition assign_ranks (series : list pyfloat) : list (option Z) :=
  let valid := dropna series in
  if (length valid <? 1)%nat then NA_series (length series)
  else
    let ranks := rank_first_desc valid in
    assign_at (length series) ranks.

(** ** The data frame of [rank_sector] *)

Record DataFrame := mkDF {
  df_perfs : list Perf.t;
  df_dtype : period → dtype;
  df_return : period → list pyfloat;
  df_decile : period → list (option Z);
  df_quartile : period → list (option Z);
  df_rank : period → list (option Z)
}.

(** [df = pd.DataFrame(performances)] followed by the loop that adds the
    decile, quartile and rank columns.  Every record carries the three
    [return_*] keys, so [col in df.columns] holds for each period. *)
Definition make_df (performances : list Perf.t) : DataFrame :=
  let raw p := Perf.ret p <$> performances in
  let col p := make_column (raw p) in
  {| df_perfs := performances;
     df_dtype p := infer_dtype (raw p);
     df_return := col;
     df_decile p := assign_deciles (col p);
     df_quartile p := assign_quartiles (col p);
     df_rank p := assign_ranks (col p) |}.

Record Row := mkRow {
  row_perf : Perf.t;
  row_return : period → pyfloat;
  row_decile : period → option Z;
  row_quartile : period → option Z;
  row_rank : period → option Z
}.

Definition row_at (df : DataFrame) (i : nat) (perf : Perf.t) : Row :=
  {| row_perf := perf;
     row_return p := default PyNone (df_return df p !! i);
     row_decile p := mjoin (df_decile df p !! i);
     row_quartile p := mjoin (df_quartile df p !! i);
     row_rank p := mjoin (df_rank df p !! i) |}.

Definition iterrows (df : DataFrame) : list Row := imap (row_at df) (df_perfs df).

(** ** [rank_sector] *)

(** [{r["fund_id"]: r for r in prior}]: a later row replaces an earlier one. *)
Definition prior_map (prior : list Prior.t) : gmap string Prior.t :=
  foldl (λ m r, <[Prior.fund_id r := r]> m) ∅ prior.

(** [v or d] for an integer-or-None [v]. *)
Definition py_or (v : option Z) (d : Z) : Z :=
  match v with
  | Some x => if decide (x = 0) then d else x
  | None => d
  end.

(** [float(v or 0)] for a cell [v] of a return column. *)
Definition float_or_0 (v : pyfloat) : pyfloat :=
  match v with
  | PyNone => PyNum 0
  | PyNaN => PyNaN
  | PyNum q => if Qeq_bool q 0 then PyNum 0 else PyNum q
  end.

Definition in_top (use_q : bool) (cd cq : option Z) : bool :=
  if use_q then bool_decide (cq = Some 1) else bool_decide (cd = Some 1).

(** One iteration of the inner loop over the periods: the new streak and the
    alerts appended. *)
Definition period_step (sector_code week_date : string) (use_q : bool)
    (row : Row) (prev : option Prior.t) (p : period) : Z * list Alert.t :=
  let fid := Perf.fund_id (row_perf row) in
  let cd := row_decile row p in
  let cq := row_quartile row p in
  let prev_streak := py_or (prev ≫= Prior.streak p) 0 in
  let streak := if in_top use_q cd cq then prev_streak + 1 else 0 in
  if use_q then
    let was_top := bool_decide (py_or (prev ≫= Prior.quartile p) 99 = 1) in
    if was_top && negb (bool_decide (cq = Some 1)) then
      (streak, [Alert.mk fid sector_code week_date "quartile_drop" p 1 cq
                  prev_streak (float_or_0 (row_return row p))])
    else (streak, [])
  else
    let was_top := bool_decide (py_or (prev ≫= Prior.decile p) 99 = 1) in
    if was_top && negb (bool_decide (cd = Some 1)) then
      (streak, [Alert.mk fid sector_code week_date "decile_drop" p 1 cd
                  prev_streak (float_or_0 (row_return row p))])
    else (streak, []).

(** One iteration of the loop over the rows. *)
Definition process_row (sector_code week_date : string) (use_q : bool) (n : Z)
    (pmap : gmap string Prior.t) (row : Row) : list Alert.t * Ranking.t :=
  let fid := Perf.fund_id (row_perf row) in
  let prev := pmap !! fid in
  let step := period_step sector_code week_date use_q row prev in
  (flat_map (λ p, (step p).2) periods,
   {| Ranking.fund_id := fid;
      Ranking.sector_code := sector_code;
      Ranking.week_date := week_date;
      Ranking.decile_1m := row_decile row P1m;
      Ranking.decile_3m := row_decile row P3m;
      Ranking.decile_6m := row_decile row P6m;
      Ranking.quartile_1m := row_quartile row P1m;
      Ranking.quartile_3m := row_quartile row P3m;
      Ranking.quartile_6m := row_quartile row P6m;
      Ranking.rank_1m := row_rank row P1m;
      Ranking.rank_3m := row_rank row P3m;
      Ranking.rank_6m := row_rank row P6m;
      Ranking.total_in_sector := n;
      Ranking.streak_1m := (step P1m).1;
      Ranking.streak_3m := (step P3m).1;
      Ranking.streak_6m := (step P6m).1 |}).

(** [frame.nlargest(k, col)] on the rows left by [dropna(subset=[col])]. *)
Definition nlargest (k : nat) (dt : dtype) (valid : list (nat * Q))
    : outcome (list (nat * Q)) :=
  match dt with
  | dt_object => Raise TypeError
  | dt_float64 => Ok (take k (sort_desc valid))
  end.

Definition float_or_None (v : pyfloat) : option Q :=
  match v with PyNum q => Some q | _ => None end.

Definition top3_entry (sector_code sector_name : string) (i : nat)
    (qr : Q * Row) : Top3.t :=
  let r := qr.2 in
  {| Top3.rank := Z.of_nat i + 1;
     Top3.fund_id := Perf.fund_id (row_perf r);
     Top3.fund_name := Perf.fund_name (row_perf r);
     Top3.sector_code := sector_code;
     Top3.sector_name := sector_name;
     Top3.return_6m := qr.1;
     Top3.return_3m := float_or_None (row_return r P3m);
     Top3.return_1m := float_or_None (row_return r P1m) |}.

Definition top3_of (sector_code sector_name : string) (df : DataFrame)
    : outcome (list Top3.t) :=
  match nlargest 3 (df_dtype df P6m) (dropna (df_return df P6m)) with
  | Raise e => Raise e
  | Ok df_6m =>
      Ok (imap (top3_entry sector_code sector_name)
            (omap (λ lq, (lq.2,.) <$> iterrows df !! lq.1) df_6m))
  end.

Definition default_quartile_threshold : Z := 20.
Definition default_min_funds : Z := 5.

Definition rank_sector (sector_code sector_name : string)
    (performances : list Perf.t) (week_date : string) (prior : list Prior.t)
    (quartile_threshold min_funds : Z) : outcome SectorResult :=
  match performances with
  | [] => Ok (mkResult [] [] [] false 0)
  | _ =>
    let n := Z.of_nat (length performances) in
    if n <? min_funds then Ok (mkResult [] [] [] false n)
    else
      let use_q := n <? quartile_threshold in
      let df := make_df performances in
      let pmap := prior_map prior in
      let processed := process_row sector_code week_date use_q n pmap <$> iterrows df in
      match top3_of sector_code sector_name df with
      | Raise e => Raise e
      | Ok top3 =>
          Ok (mkResult (processed.*2) (concat (processed.*1)) top3 use_q n)
      end
  end.

(** ** Notions of the specification *)

(** [before x y]: entry [x] ranks strictly better than entry [y], by value
    descending and, for equal values, by label (input position) ascending. *)
Definition before (x y : nat * Q) : Prop :=
  (y.2 < x.2)%Q ∨ ((y.2 == x.2)%Q ∧ (x.1 < y.1)%nat).

(** The position of the entry labelled [i] in a list of labelled values. *)
Definition position_of (i : nat) (l : list (nat * Q)) : option nat :=
  fst <$> list_find (λ x, x.1 = i) l.

(** The rank as the specification words it: the 1-based position of fund
    [i] in the valid pool sorted by return descending, exact ties in input
    order. *)
Definition rank_of (s : list pyfloat) (i : nat) : option Z :=
  (λ pos, Z.of_nat pos + 1) <$> position_of i (sort_desc (dropna s)).

(** The size of the valid pool of a column. *)
Definition pool_size (s : list pyfloat) : nat :=
  length (filter (λ v, notna v = true) s).

(** The ceiling of the fraction [a / b], for a positive [b]. *)
Definition ceil_div (a b : Z) : Z := - ((- a) / b).

(** [before x y] is decidable: both orders are orders on integers. *)
#[global] Instance before_dec x y : Decision (before x y).
Proof. unfold before, Qlt, Qeq. apply _. Defined.

(** The valid pool as the specification words it: the entries of a column
    that hold a return, each with its input position. *)
Definition valid_pool (s : list pyfloat) : list (nat * Q) :=
  omap (λ jv, match jv.2 with PyNum q => Some (jv.1, q) | _ => None end)
       (imap pair s).

(** The number of entries of the valid pool that rank strictly better
    than the entry at position [i] with return [q]: those with a higher
    return, and those with the same return at an earlier position. *)
Definition better_than (s : list pyfloat) (i : nat) (q : Q) : nat :=
  length (filter (λ x, before x (i, q)) (valid_pool s)).

(** The rank of the specification, without a sort: the 1-based position
    in the order by return descending, exact ties in input order, is one
    more than the number of entries that rank strictly better. *)
Definition spec_rank (s : list pyfloat) (i : nat) : option Z :=
  match s !! i with
  | Some (PyNum q) => Some (Z.of_nat (better_than s i q) + 1)
  | _ => None
  end.

(** The decile ([k = 10]) or quartile ([k = 4]) of the specification:
    null for a pool of fewer than 2 funds or a fund without a return,
    otherwise [ceil(rank / poolSize * k)] clamped to [1, k]. *)
Definition spec_tier (k : Z) (s : list pyfloat) (i : nat) : option Z :=
  if (pool_size s <? 2)%nat then None
  else (λ r, clip 1 k (ceil_div (r * k) (Z.of_nat (pool_size s)))) <$> spec_rank s i.

(** Top tier of the specification under a mode: quartile 1 or decile 1. *)
Definition spec_top_tier (use_q : bool) (s : list pyfloat) (i : nat) : bool :=
  bool_decide (spec_tier (if use_q then 4 else 10) s i = Some 1).

(** The prior row of a fund, read off the list: the last row that carries
    the fund's id ([None] when the fund has no prior record). *)
Definition prior_row (prior : list Prior.t) (fid : string) : option Prior.t :=
  last (filter (λ r, Prior.fund_id r = fid) prior).

(** The prior streak of a fund for a period, 0 when the fund or the field
    is absent. *)
Definition prior_streak (prior : list Prior.t) (fid : string) (p : period) : Z :=
  match prior_row prior fid with
  | Some r => default 0 (Prior.streak p r)
  | None => 0
  end.

(** What the code reads as "was top": the prior row of the fund holds 1
    as its quartile (when [use_q]) or as its decile (otherwise) for the
    period.  [use_q] is the mode of the week being ranked; a prior row
    does not record the mode of the week it was written in. *)
Definition prior_row_top (use_q : bool) (prior : list Prior.t) (fid : string)
    (p : period) : bool :=
  match prior_row prior fid with
  | Some r => bool_decide ((if use_q then Prior.quartile p r else Prior.decile p r) = Some 1)
  | None => false
  end.

(** Top tier this week, read off a row of the frame. *)
Definition now_top (use_q : bool) (row : Row) (p : period) : bool :=
  in_top use_q (row_decile row p) (row_quartile row p).

(** Top tier last week, read off the prior row of the fund, if any. *)
Definition was_top (use_q : bool) (prev : option Prior.t) (p : period) : bool :=
  bool_decide ((prev ≫= if use_q then Prior.quartile p else Prior.decile p) = Some 1).

(** The alert appended when a fund leaves the top tier. *)
Definition drop_alert (sc wd : string) (use_q : bool) (row : Row)
    (prev : option Prior.t) (p : period) : Alert.t :=
  Alert.mk (Perf.fund_id (row_perf row)) sc wd
    (if use_q then "quartile_drop" else "decile_drop") p 1
    (if use_q then row_quartile row p else row_decile row p)
    (py_or (prev ≫= Prior.streak p) 0)
    (float_or_0 (row_return row p)).

(** The raw values of a return key, in input order. *)
Definition raw_returns (p : period) (performances : list Perf.t) : list pyfloat :=
  Perf.ret p <$> performances.

(** Top tier of a ranking row under a mode: quartile 1 or decile 1. *)
Definition top_tier (use_q : bool) (r : Ranking.t) (p : period) : bool :=
  bool_decide ((if use_q then Ranking.quartile p r else Ranking.decile p r) = Some 1).

(** The alerts of the result for a fund and a period. *)
Definition alerts_for (res : SectorResult) (fid : string) (p : period) : list Alert.t :=
  filter (λ a, Alert.fund_id a = fid ∧ Alert.period_ a = p) (alerts res).

(** Top tier this week, read off the ranking rows of the result. *)
Definition current_top_tier (res : SectorResult) (fid : string) (p : period) : bool :=
  bool_decide (Exists (λ r, Ranking.fund_id r = fid
                            ∧ top_tier (use_quartiles res) r p = true) (rankings res)).

(** What [float(row.get(f"return_{p}") or 0)] evaluates to, in terms of the
    input record: a null return gives 0.0 only when every fund of the
    sector has a null return for the period read as [None]; in a column
    that holds a float the null is [nan], which is truthy. *)
Definition alert_value (perfs : list Perf.t) (perf : Perf.t) (p : period) : pyfloat :=
  match Perf.ret p perf with
  | PyNum q => if Qeq_bool q 0 then PyNum 0 else PyNum q
  | PyNaN => PyNaN
  | PyNone => if forallb is_None (raw_returns p perfs) then PyNum 0 else PyNaN
  end.

(** ** Concrete sectors *)

(** A performance record whose name is its id. *)
Definition fund (id : string) (r1 r3 r6 : pyfloat) : Perf.t :=
  Perf.mk id id r1 r3 r6.

(** Scenario B: five funds, one without a 6-month return. *)
Definition scenario_B : list Perf.t :=
  [ fund "a" (PyNum 1) (PyNum 1) (PyNum 12.5);
    fund "b" (PyNum 2) (PyNum 1) (PyNum 9);
    fund "c" (PyNum 3) (PyNum 1) (PyNum 15);
    fund "d" (PyNum 4) (PyNum 1) PyNone;
    fund "e" (PyNum 5) (PyNum 1) (PyNum 7) ].

(** Scenario A: four funds, below the default [min_funds]. *)
Definition scenario_A : list Perf.t :=
  [ fund "a" (PyNum 1) (PyNum 1) (PyNum 12.5);
    fund "b" (PyNum 2) (PyNum 1) (PyNum 9);
    fund "c" (PyNum 3) (PyNum 1) (PyNum 15);
    fund "d" (PyNum 4) (PyNum 1) (PyNum 7) ].

(** A prior snapshot for scenario B: fund "a" led the 1-month and 6-month
    quartiles with streaks 3 and 2, fund "c" led the 6-month quartile with
    streak 4, fund "d" led the 6-month quartile with streak 1. *)
Definition prior_B : list Prior.t :=
  [ Prior.mk "a" (Some 1) (Some 3) (Some 1) (Some 1) (Some 2) (Some 1)
      (Some 3) None (Some 2);
    Prior.mk "c" (Some 2) (Some 5) (Some 1) (Some 2) (Some 3) (Some 1)
      (Some 0) (Some 0) (Some 4);
    Prior.mk "d" (Some 4) (Some 7) (Some 1) (Some 2) (Some 3) (Some 1)
      (Some 0) (Some 0) (Some 1) ].

(** The result carried by an outcome (the empty result when it raised). *)
Definition result_of (o : outcome SectorResult) : SectorResult :=
  match o with Ok r => r | Raise _ => mkResult [] [] [] false 0 end.

(** The result of scenario B against [prior_B], with the default
    configuration. *)
Definition result_B : SectorResult :=
  result_of (rank_sector "S" "Sector" scenario_B "2026-02-16" prior_B 20 5).

(** An empty ranking row, the default of [ranking_at]. *)
Definition blank_ranking : Ranking.t :=
  Ranking.mk "" "" "" None None None None None None None None None 0 0 0 0.

(** The [i]-th ranking row of a result. *)
Definition ranking_at (res : SectorResult) (i : nat) : Ranking.t :=
  default blank_ranking (rankings res !! i).

(** A sector in which a single fund has a 1-month return. *)
Definition scenario_single : list Perf.t :=
  [ fund "a" PyNone (PyNum 1) (PyNum 12.5);
    fund "b" PyNone (PyNum 2) (PyNum 9);
    fund "c" (PyNum 3) (PyNum 3) (PyNum 15);
    fund "d" PyNone (PyNum 4) (PyNum 7);
    fund "e" PyNone (PyNum 5) (PyNum 8) ].

(** The result of [scenario_single], without a prior snapshot. *)
Definition result_single : SectorResult :=
  result_of (rank_sector "S" "Sector" scenario_single "2026-02-16" [] 20 5).

(** A column with a null entry and two equal returns. *)
Definition returns_B6 : list pyfloat :=
  [PyNum 12.5; PyNum 9; PyNum 15; PyNone; PyNum 7; PyNum 12.5].

(** Scenarios C and D: twenty funds "f0" to "f19" with 6-month returns 0
    to 19, hence decile mode; fund "f17" led the 6-month decile last week
    with streak 3, fund "f19" has no prior row. *)
Definition sector_20 : list Perf.t :=
  imap (λ i _, fund ("f" +:+ pretty i) (PyNum 1) (PyNum 1)
                 (PyNum (inject_Z (Z.of_nat i)))) (replicate 20 ()).

(** The prior snapshot of scenario C. *)
Definition prior_C : list Prior.t :=
  [ Prior.mk "f17" None None (Some 1) None None (Some 1) None None (Some 3) ].

(** The result of [sector_20] against [prior_C], with the default
    configuration. *)
Definition result_C : SectorResult :=
  result_of (rank_sector "S" "Sector" sector_20 "2026-02-16" prior_C 20 5).

(** A sector in which no fund has a 6-month return. *)
Definition scenario_no_6m : list Perf.t :=
  [ fund "a" (PyNum 1) (PyNum 1) PyNone;
    fund "b" (PyNum 2) (PyNum 1) PyNone;
    fund "c" (PyNum 3) (PyNum 1) PyNone;
    fund "d" (PyNum 4) (PyNum 1) PyNone;
    fund "e" (PyNum 5) (PyNum 1) PyNone ].


(** ** The week after *)

(** A ranking row of one week read as a prior row of the next: the pipeline
    stores the ranking rows and hands the latest stored rows of the sector
    to [rank_sector] as [prior]; the keys [rank_sector] reads from a prior
    row are keys of the rows it writes. *)
Definition as_prior (r : Ranking.t) : Prior.t :=
  {| Prior.fund_id := Ranking.fund_id r;
     Prior.decile_1m := Ranking.decile_1m r;
     Prior.decile_3m := Ranking.decile_3m r;
     Prior.decile_6m := Ranking.decile_6m r;
     Prior.quartile_1m := Ranking.quartile_1m r;
     Prior.quartile_3m := Ranking.quartile_3m r;
     Prior.quartile_6m := Ranking.quartile_6m r;
     Prior.streak_1m := Some (Ranking.streak_1m r);
     Prior.streak_3m := Some (Ranking.streak_3m r);
     Prior.streak_6m := Some (Ranking.streak_6m r) |}.

(** A prior snapshot whose only fund, top tier in every reading with a
    streak of 3, has no record in [scenario_B]. *)
Definition prior_gone : list Prior.t :=
  [ Prior.mk "zz" (Some 1) (Some 1) (Some 1) (Some 1) (Some 1) (Some 1)
      (Some 3) (Some 3) (Some 3) ].

Definition result_gone : SectorResult :=
  result_of (rank_sector "S" "Sector" scenario_B "2026-02-16" prior_gone 20 5).

(** A sector in which two records carry the fund id "a", and a prior
    snapshot in which "a" is top tier with a streak of 2. *)
Definition scenario_dup : list Perf.t :=
  [ fund "a" (PyNum 1) (PyNum 1) (PyNum 1);
    fund "a" (PyNum 2) (PyNum 2) (PyNum 2);
    fund "b" (PyNum 3) (PyNum 3) (PyNum 3);
    fund "c" (PyNum 4) (PyNum 4) (PyNum 4);
    fund "d" (PyNum 5) (PyNum 5) (PyNum 5) ].

Definition prior_dup : list Prior.t :=
  [ Prior.mk "a" (Some 1) (Some 1) (Some 1) (Some 1) (Some 1) (Some 1)
      (Some 2) (Some 2) (Some 2) ].

Definition result_dup : SectorResult :=
  result_of (rank_sector "S" "Sector" scenario_dup "2026-02-16" prior_dup 20 5).

(** A sector of 19 funds, ranked in quartile mode with no prior snapshot,
    and the week after, when the sector has 20 funds and is ranked in
    decile mode against the rows of the first week. *)
Definition sector_19 : list Perf.t :=
  imap (λ i _, fund ("f" +:+ pretty i) (PyNum 1) (PyNum 1)
                 (PyNum (inject_Z (Z.of_nat i)))) (replicate 19 ()).

Definition result_19 : SectorResult :=
  result_of (rank_sector "S" "Sector" sector_19 "2026-02-16" [] 20 5).

Definition result_flip : SectorResult :=
  result_of (rank_sector "S" "Sector" sector_20 "2026-02-23"
               (as_prior <$> rankings result_19) 20 5).

(** An empty alert, the default of [alert_at]. *)
Definition blank_alert : Alert.t := Alert.mk "" "" "" "" P1m 0 None 0 PyNone.

(** The [i]-th alert of a result. *)
Definition alert_at (res : SectorResult) (i : nat) : Alert.t :=
  default blank_alert (alerts res !! i).

(** The week after scenario B: fund "a" takes the lead over 6 months and
    fund "c" falls to the third place. *)
Definition scenario_B_next : list Perf.t :=
  [ fund "a" (PyNum 1) (PyNum 1) (PyNum 20);
    fund "b" (PyNum 2) (PyNum 1) (PyNum 9);
    fund "c" (PyNum 3) (PyNum 1) (PyNum 8);
    fund "d" (PyNum 4) (PyNum 1) (PyNum 7);
    fund "e" (PyNum 5) (PyNum 1) (PyNum 6) ].

(** The result of the week after scenario B, the rankings of scenario B
    being the prior snapshot. *)
Definition result_B_next : SectorResult :=
  result_of (rank_sector "S" "Sector" scenario_B_next "2026-02-23"
               (as_prior <$> rankings result_B) 20 5).

(** ** The digest: [build_alert_list] of the email dispatcher

    [backend/email/dispatcher.py] groups the alerts of the week by fund.
    The [defaultdict] keeps its keys in insertion order; it is a list of
    groups, each found by its fund id.  The alerts are those [rank_sector]
    produced, so every key read with [a.get] is present. *)

Module Drop.
Record t := mk {
  period_ : period;
  prev_decile : Z;
  curr_decile : option Z;
  return_value : pyfloat
}.
End Drop.

Module AlertGroup.
Record t := mk {
  fund_id : string;
  fund_name : string;
  sector_name : string;
  sector_code : string;
  streak_broken : Z;
  drops : list Drop.t
}.
End AlertGroup.

(** The entry appended to [grouped[fid]["drops"]]. *)
Definition to_drop (a : Alert.t) : Drop.t :=
  {| Drop.period_ := Alert.period_ a;
     Drop.prev_decile := Alert.prev_decile a;
     Drop.curr_decile := Alert.curr_decile a;
     Drop.return_value := Alert.return_value a |}.

(** One iteration of the loop over [raw_alerts]: the group of the fund is
    created with no drops and streak 0 when the fund is new, its name and
    sector are set again, its streak is raised to the alert's when that is
    larger, and the drop is appended. *)
Definition add_alert (fund_names sector_names : gmap string string)
    (grouped : list AlertGroup.t) (a : Alert.t) : list AlertGroup.t :=
  let fid := Alert.fund_id a in
  let updated (streak : Z) (drops : list Drop.t) : AlertGroup.t :=
    {| AlertGroup.fund_id := fid;
       AlertGroup.fund_name := default fid (fund_names !! fid);
       AlertGroup.sector_name :=
         default (Alert.sector_code a) (sector_names !! Alert.sector_code a);
       AlertGroup.sector_code := Alert.sector_code a;
       AlertGroup.streak_broken :=
         if bool_decide (streak < Alert.streak_broken a)
         then Alert.streak_broken a else streak;
       AlertGroup.drops := drops ++ [to_drop a] |} in
  match list_find (λ g, AlertGroup.fund_id g = fid) grouped with
  | Some (i, g) =>
      <[i := updated (AlertGroup.streak_broken g) (AlertGroup.drops g)]> grouped
  | None => grouped ++ [updated 0 []]
  end.

(** [sorted(groups, key=lambda x: -x["streak_broken"])]: a stable sort,
    ascending on the key. *)
Fixpoint insert_group (g : AlertGroup.t) (l : list AlertGroup.t) : list AlertGroup.t :=
  match l with
  | [] => [g]
  | h :: l' =>
      if bool_decide (- AlertGroup.streak_broken g ≤ - AlertGroup.streak_broken h)
      then g :: l else h :: insert_group g l'
  end.

Definition sort_groups (l : list AlertGroup.t) : list AlertGroup.t :=
  foldr insert_group [] l.

Definition build_alert_list (raw_alerts : list Alert.t)
    (fund_names sector_names : gmap string string) : list AlertGroup.t :=
  sort_groups (foldl (add_alert fund_names sector_names) [] raw_alerts).

(** [len(set(a["fund_id"] for a in alerts))] of [dispatch_digest]. *)
Definition drop_count (alerts : list Alert.t) : nat :=
  size (list_to_set (Alert.fund_id <$> alerts) : gset string).

(** The fund ids of a list, each once, in the order of their first
    occurrence. *)
Definition first_seen (ids : list string) : list string :=
  reverse (remove_dups (reverse ids)).

(** The alerts of a fund, in input order. *)
Definition alerts_of_fund (fid : string) (raw : list Alert.t) : list Alert.t :=
  filter (λ a, Alert.fund_id a = fid) raw.

(** The largest [streak_broken] of a list of alerts, 0 at least. *)
Definition max_streak (l : list Alert.t) : Z :=
  foldl (λ m a, Z.max m (Alert.streak_broken a)) 0 l.

(** The group of a fund as a function of the whole input. *)
Definition group_of (fund_names sector_names : gmap string string)
    (raw : list Alert.t) (fid : string) : AlertGroup.t :=
  let mine := alerts_of_fund fid raw in
  let sc := default "" (Alert.sector_code <$> last mine) in
  {| AlertGroup.fund_id := fid;
     AlertGroup.fund_name := default fid (fund_names !! fid);
     AlertGroup.sector_name := default sc (sector_names !! sc);
     AlertGroup.sector_code := sc;
     AlertGroup.streak_broken := max_streak mine;
     AlertGroup.drops := to_drop <$> mine |}.

(** The position of the first alert of a fund. *)
Definition first_alert (fid : string) (raw : list Alert.t) : option nat :=
  fst <$> list_find (λ a, Alert.fund_id a = fid) raw.

(** The alerts of two sectors in one week, as the pipeline collects them,
    and their digest. *)
Definition week_alerts : list Alert.t := alerts result_B ++ alerts result_C.

Definition fund_names_B : gmap string string :=
  list_to_map [("a", "Alpha Fund"); ("f17", "Fund Seventeen")].

Definition sector_names_B : gmap string string :=
  list_to_map [("S", "Sector")].

Definition digest_B : list AlertGroup.t :=
  build_alert_list week_alerts fund_names_B sector_names_B.

Definition blank_group : AlertGroup.t :=
  AlertGroup.mk "" "" "" "" 0 [].

Definition group_at (l : list AlertGroup.t) (i : nat) : AlertGroup.t :=
  default blank_group (l !! i).

(** [earlier l x y]: group [x] has the larger streak, or the same streak
    and an earlier place in [l]. *)
Definition earlier (l : list AlertGroup.t) (x y : AlertGroup.t) : Prop :=
  AlertGroup.streak_broken y < AlertGroup.streak_broken x ∨
  (AlertGroup.streak_broken y = AlertGroup.streak_broken x ∧
   ∃ i j, l !! i = Some x ∧ l !! j = Some y ∧ (i < j)%nat).

(** ** The stable descending sort *)

Lemma before_trans x y z : before x y → before y z → before x z.
Proof.
  unfold before. intros [H1|[H1 H1']] [H2|[H2 H2']].
  - left. lra.
  - left. lra.
  - left. lra.
  - right. split; [lra | lia].
Qed.

Lemma before_irrefl x : ¬ before x x.
Proof. unfold before. intros [H|[_ H]]; [lra | lia]. Qed.

Lemma insert_desc_perm x l : insert_desc x l ≡ₚ x :: l.
Proof.
  induction l as [|y l IH]; simpl; [done|].
  destruct (Qle_bool y.2 x.2); [done|].
  rewrite IH. apply Permutation_swap.
Qed.

Lemma sort_desc_perm l : sort_desc l ≡ₚ l.
Proof.
  induction l as [|x l IH]; simpl; [done|].
  by rewrite insert_desc_perm, IH.
Qed.

Lemma length_sort_desc l : length (sort_desc l) = length l.
Proof. by rewrite sort_desc_perm. Qed.

Lemma insert_desc_sorted x l :
  StronglySorted before l →
  Forall (λ y, (x.1 < y.1)%nat) l →
  StronglySorted before (insert_desc x l).
Proof.
  induction 1 as [|y l Hs IH Hy]; intros Hx; simpl.
  { repeat constructor. }
  apply Forall_cons in Hx as [Hxy Hx].
  destruct (Qle_bool y.2 x.2) eqn:Hle.
  - apply Qle_bool_iff in Hle.
    assert (before x y) as Hb.
    { unfold before. destruct (Qlt_le_dec y.2 x.2); [by left|].
      right. split; [lra | done]. }
    constructor; [by constructor|].
    constructor; [done|].
    eapply Forall_impl; [exact Hy|].
    intros z Hz. by eapply before_trans.
  - assert (¬ (y.2 <= x.2)%Q) as Hn.
    { intros Hc. apply Qle_bool_iff in Hc. congruence. }
    constructor; [by apply IH|].
    rewrite insert_desc_perm. constructor; [|done].
    left. lra.
Qed.

Lemma sort_desc_sorted l :
  StronglySorted (λ x y, (x.1 < y.1)%nat) l →
  StronglySorted before (sort_desc l).
Proof.
  induction 1 as [|x l Hs IH Hx]; simpl; [constructor|].
  apply insert_desc_sorted; [done|].
  by rewrite sort_desc_perm.
Qed.

(** ** [dropna] *)

Lemma elem_of_dropna_from k s i q :
  (i, q) ∈ dropna_from k s ↔ (k ≤ i)%nat ∧ s !! (i - k)%nat = Some (PyNum q).
Proof.
  revert k. induction s as [|v s IH]; intros k; simpl.
  { rewrite elem_of_nil. split; [done|]. intros [_ H]. by rewrite lookup_nil in H. }
  assert ((i, q) ∈ dropna_from (S k) s ↔
          (k < i)%nat ∧ (v :: s) !! (i - k)%nat = Some (PyNum q)) as Htl.
  { rewrite IH. split.
    - intros [? Hl]. split; [lia|].
      by replace (i - k)%nat with (S (i - S k)) by lia.
    - intros [? Hl]. split; [lia|].
      by replace (i - k)%nat with (S (i - S k)) in Hl by lia. }
  destruct v as [| |q'].
  - rewrite Htl. split; [intros [? ?]; split; [lia|done]|].
    intros [? Hl]. destruct (decide (i = k)) as [->|]; [|split; [lia|done]].
    by rewrite Nat.sub_diag in Hl.
  - rewrite Htl. split; [intros [? ?]; split; [lia|done]|].
    intros [? Hl]. destruct (decide (i = k)) as [->|]; [|split; [lia|done]].
    by rewrite Nat.sub_diag in Hl.
  - rewrite elem_of_cons, Htl. split.
    + intros [[= -> ->]|[? ?]]; [|split; [lia|done]].
      by rewrite Nat.sub_diag.
    + intros [? Hl]. destruct (decide (i = k)) as [->|]; [|right; split; [lia|done]].
      rewrite Nat.sub_diag in Hl. left. by simplify_eq/=.
Qed.

Lemma elem_of_dropna s i q : (i, q) ∈ dropna s ↔ s !! i = Some (PyNum q).
Proof.
  unfold dropna. rewrite elem_of_dropna_from, Nat.sub_0_r.
  split; [by intros [_ ?]|]. intros ?. split; [lia|done].
Qed.

Lemma dropna_from_sorted k s :
  StronglySorted (λ x y : nat * Q, (x.1 < y.1)%nat) (dropna_from k s).
Proof.
  revert k. induction s as [|v s IH]; intros k; simpl; [constructor|].
  destruct v; try apply IH.
  constructor; [apply IH|].
  apply Forall_forall. intros [i q'] Hin.
  apply elem_of_dropna_from in Hin. simpl. lia.
Qed.

Lemma dropna_from_make_column k raw :
  dropna_from k (make_column raw) = dropna_from k raw.
Proof.
  unfold make_column. destruct (infer_dtype raw); [done|].
  revert k. induction raw as [|v raw IH]; intros k; [done|].
  destruct v; simpl; by rewrite ?IH.
Qed.

Lemma dropna_make_column raw : dropna (make_column raw) = dropna raw.
Proof. apply dropna_from_make_column. Qed.

Lemma length_make_column raw : length (make_column raw) = length raw.
Proof. unfold make_column. destruct (infer_dtype raw); by rewrite ?length_fmap. Qed.

Lemma length_dropna_from k s :
  length (dropna_from k s) = length (filter (λ v, notna v = true) s).
Proof.
  revert k. induction s as [|v s IH]; intros k; [done|].
  rewrite filter_cons. destruct v; simpl; by rewrite IH.
Qed.

(** ** Ranks as positions in the sorted pool *)

Lemma length_dropna s : length (dropna s) = pool_size s.
Proof. apply length_dropna_from. Qed.

Lemma StronglySorted_lookup_lt {A} (R : relation A) l a b x y :
  StronglySorted R l → l !! a = Some x → l !! b = Some y → (a < b)%nat → R x y.
Proof.
  intros Hs. revert a b. induction Hs as [|z l Hs IH Hz]; intros a b Ha Hb Hab.
  { by rewrite lookup_nil in Ha. }
  destruct b as [|b]; [lia|]. simpl in Hb.
  destruct a as [|a]; simpl in Ha.
  - simplify_eq. rewrite Forall_forall in Hz. apply Hz.
    by eapply list_elem_of_lookup_2.
  - eapply IH; [done..|lia].
Qed.

Lemma list_to_map_imap_lookup (g : nat → Z) (l : list (nat * Q)) i :
  (list_to_map (imap (λ pos x, (x.1, g pos)) l) : gmap nat Z) !! i
  = g <$> position_of i l.
Proof.
  unfold position_of. revert g. induction l as [|x l IH]; intros g; simpl; [done|].
  destruct (decide (x.1 = i)) as [Hx|Hx].
  - by rewrite Hx, lookup_insert_eq.
  - rewrite lookup_insert_ne by done.
    etrans; [apply (IH (g ∘ S))|].
    destruct (list_find _ l) as [[pos y]|]; done.
Qed.

Lemma length_assign_at len vals : length (assign_at len vals) = len.
Proof. unfold assign_at. by rewrite length_fmap, length_seq. Qed.

Lemma assign_at_lookup len vals i :
  (i < len)%nat →
  assign_at len vals !! i = Some ((list_to_map vals : gmap nat Z) !! i).
Proof.
  intros Hi. unfold assign_at.
  by rewrite list_lookup_fmap, lookup_seq_lt.
Qed.

Lemma ranked_lookup (f : Z → Z) (s : list pyfloat) i :
  (list_to_map ((λ ir : nat * Z, (ir.1, f ir.2)) <$> rank_first_desc (dropna s))
     : gmap nat Z) !! i
  = f <$> rank_of s i.
Proof.
  unfold rank_first_desc, rank_of. rewrite fmap_imap.
  rewrite (list_to_map_imap_lookup (λ pos, f (Z.of_nat pos + 1))).
  by destruct (position_of i _).
Qed.

Lemma assign_ranks_lookup s i :
  (i < length s)%nat → assign_ranks s !! i = Some (rank_of s i).
Proof.
  intros Hi. unfold assign_ranks.
  destruct (length (dropna s) <? 1)%nat eqn:Hn.
  - apply Nat.ltb_lt in Hn.
    assert (dropna s = []) as Hnil by (apply length_zero_iff_nil; lia).
    unfold NA_series, rank_of. rewrite Hnil. simpl.
    by rewrite lookup_replicate_2.
  - rewrite assign_at_lookup by done. f_equal.
    assert ((λ ir : nat * Z, (ir.1, id ir.2)) <$> rank_first_desc (dropna s)
            = rank_first_desc (dropna s)) as Hid.
    { etrans; [|apply list_fmap_id]. apply list_fmap_ext. by intros ? [??]. }
    rewrite <- Hid. rewrite ranked_lookup. apply option_fmap_id.
Qed.

Lemma assign_deciles_lookup s i :
  (i < length s)%nat →
  assign_deciles s !! i =
    Some (if (pool_size s <? 2)%nat then None
          else (λ r, clip 1 10 (ceil_scaled r (pool_size s) 10)) <$> rank_of s i).
Proof.
  intros Hi. unfold assign_deciles. rewrite length_dropna.
  destruct (pool_size s <? 2)%nat.
  - unfold NA_series. by rewrite lookup_replicate_2.
  - rewrite assign_at_lookup by done. f_equal.
    apply (ranked_lookup (λ r, clip 1 10 (ceil_scaled r (pool_size s) 10))).
Qed.

Lemma assign_quartiles_lookup s i :
  (i < length s)%nat →
  assign_quartiles s !! i =
    Some (if (pool_size s <? 2)%nat then None
          else (λ r, clip 1 4 (ceil_scaled r (pool_size s) 4)) <$> rank_of s i).
Proof.
  intros Hi. unfold assign_quartiles. rewrite length_dropna.
  destruct (pool_size s <? 2)%nat.
  - unfold NA_series. by rewrite lookup_replicate_2.
  - rewrite assign_at_lookup by done. f_equal.
    apply (ranked_lookup (λ r, clip 1 4 (ceil_scaled r (pool_size s) 4))).
Qed.

Lemma length_assign_ranks s : length (assign_ranks s) = length s.
Proof.
  unfold assign_ranks, NA_series.
  destruct (_ <? _)%nat; by rewrite ?length_replicate, ?length_assign_at.
Qed.

Lemma length_assign_deciles s : length (assign_deciles s) = length s.
Proof.
  unfold assign_deciles, NA_series.
  destruct (_ <? _)%nat; by rewrite ?length_replicate, ?length_assign_at.
Qed.

Lemma length_assign_quartiles s : length (assign_quartiles s) = length s.
Proof.
  unfold assign_quartiles, NA_series.
  destruct (_ <? _)%nat; by rewrite ?length_replicate, ?length_assign_at.
Qed.

Lemma sorted_pool_sorted s : StronglySorted before (sort_desc (dropna s)).
Proof. apply sort_desc_sorted, dropna_from_sorted. Qed.

Lemma elem_of_sorted_pool s i q :
  (i, q) ∈ sort_desc (dropna s) ↔ s !! i = Some (PyNum q).
Proof. rewrite sort_desc_perm. apply elem_of_dropna. Qed.

Lemma sorted_pool_lookup_inj s a b x :
  sort_desc (dropna s) !! a = Some x →
  sort_desc (dropna s) !! b = Some x → a = b.
Proof.
  intros Ha Hb. pose proof (sorted_pool_sorted s) as Hs.
  destruct (Nat.lt_trichotomy a b) as [H|[H|H]]; [|done|]; exfalso.
  - by eapply (before_irrefl x), (StronglySorted_lookup_lt _ _ a b).
  - by eapply (before_irrefl x), (StronglySorted_lookup_lt _ _ b a).
Qed.

Lemma sorted_pool_label_inj s a b i q q' :
  sort_desc (dropna s) !! a = Some (i, q) →
  sort_desc (dropna s) !! b = Some (i, q') → a = b.
Proof.
  intros Ha Hb.
  assert (q = q') as <-; [|by eapply sorted_pool_lookup_inj].
  apply list_elem_of_lookup_2, elem_of_sorted_pool in Ha.
  apply list_elem_of_lookup_2, elem_of_sorted_pool in Hb.
  congruence.
Qed.

Lemma rank_of_Some s i r :
  rank_of s i = Some r ↔
  ∃ pos q, sort_desc (dropna s) !! pos = Some (i, q) ∧ r = Z.of_nat pos + 1.
Proof.
  unfold rank_of, position_of. split.
  - intros H. apply fmap_Some in H as (pos & H & ->).
    apply fmap_Some in H as ([pos' [j q]] & H & ->).
    apply list_find_Some in H as (H & Hj & _). simpl in *. subst j. eauto.
  - intros (pos & q & H & ->).
    destruct (list_find _ _) as [[pos' [j q']]|] eqn:Hf; simpl.
    + apply list_find_Some in Hf as (Hf & Hj & _). simpl in Hj. subst j.
      by rewrite (sorted_pool_label_inj _ _ _ _ _ _ H Hf).
    + apply list_find_None in Hf. rewrite Forall_forall in Hf.
      exfalso. apply (Hf (i, q)); [by eapply list_elem_of_lookup_2|done].
Qed.

Lemma rank_of_is_Some s i :
  is_Some (rank_of s i) ↔ ∃ q, s !! i = Some (PyNum q).
Proof.
  split.
  - intros [r Hr]. apply rank_of_Some in Hr as (pos & q & H & _).
    exists q. by apply list_elem_of_lookup_2, elem_of_sorted_pool in H.
  - intros [q Hq]. apply elem_of_sorted_pool, list_elem_of_lookup_1 in Hq as [pos H].
    exists (Z.of_nat pos + 1). apply rank_of_Some. eauto.
Qed.

Lemma rank_of_bounds s i r :
  rank_of s i = Some r → 1 ≤ r ≤ Z.of_nat (pool_size s).
Proof.
  intros Hr. apply rank_of_Some in Hr as (pos & q & H & ->).
  apply lookup_lt_Some in H. rewrite length_sort_desc, length_dropna in H. lia.
Qed.

Lemma rank_of_inj s i j r :
  rank_of s i = Some r → rank_of s j = Some r → i = j.
Proof.
  intros Hi Hj.
  apply rank_of_Some in Hi as (a & qi & Ha & ->).
  apply rank_of_Some in Hj as (b & qj & Hb & Hab).
  assert (a = b) as -> by lia. congruence.
Qed.

Lemma rank_of_before s i j qi qj :
  s !! i = Some (PyNum qi) → s !! j = Some (PyNum qj) →
  before (i, qi) (j, qj) →
  ∃ ri rj, rank_of s i = Some ri ∧ rank_of s j = Some rj ∧ ri < rj.
Proof.
  intros Hi Hj Hb.
  apply elem_of_sorted_pool, list_elem_of_lookup_1 in Hi as [a Ha].
  apply elem_of_sorted_pool, list_elem_of_lookup_1 in Hj as [b Hb'].
  exists (Z.of_nat a + 1), (Z.of_nat b + 1).
  split; [apply rank_of_Some; eauto|]. split; [apply rank_of_Some; eauto|].
  pose proof (sorted_pool_sorted s) as Hs.
  destruct (Nat.lt_trichotomy a b) as [H|[H|H]]; [lia| |]; exfalso.
  - subst b. rewrite Ha in Hb'. injection Hb' as <- <-. by eapply before_irrefl.
  - eapply (before_irrefl (i, qi)), before_trans; [exact Hb|].
    by eapply (StronglySorted_lookup_lt _ _ b a).
Qed.

(** ** The ceiling of [rank / n * k] *)

Lemma ceil_scaled_spec r n k :
  (0 < n)%nat →
  Z.of_nat n * (ceil_scaled r n k - 1) < r * k ≤ Z.of_nat n * ceil_scaled r n k.
Proof.
  intros Hn. unfold ceil_scaled.
  set (x := (inject_Z r / inject_Z (Z.of_nat n) * inject_Z k)%Q).
  assert (0 < inject_Z (Z.of_nat n))%Q as Hpos.
  { rewrite <- (Zlt_Qlt 0). lia. }
  assert (x * inject_Z (Z.of_nat n) == inject_Z (r * k))%Q as Hx.
  { unfold x. rewrite inject_Z_mult. field. lra. }
  pose proof (Qle_ceiling x) as Hle.
  pose proof (Qceiling_lt x) as Hlt.
  clearbody x. split.
  - rewrite Zlt_Qlt, inject_Z_mult, <- Hx.
    pose proof (Qmult_lt_compat_r _ _ _ Hpos Hlt) as H.
    revert H. generalize (inject_Z (Qceiling x - 1)) (inject_Z (Z.of_nat n)).
    intros c m H. eapply Qle_lt_trans; [|exact H].
    apply Qle_lteq. right. apply Qmult_comm.
  - rewrite Zle_Qle, inject_Z_mult, <- Hx.
    pose proof (Qmult_le_compat_r _ _ (inject_Z (Z.of_nat n)) Hle) as H.
    eapply Qle_trans; [apply H; lra|].
    apply Qle_lteq. right. apply Qmult_comm.
Qed.

Lemma ceil_scaled_range r n k :
  0 < k → 1 ≤ r ≤ Z.of_nat n → 1 ≤ ceil_scaled r n k ≤ k.
Proof.
  intros Hk Hr. pose proof (ceil_scaled_spec r n k ltac:(lia)). nia.
Qed.

Lemma ceil_scaled_mono r1 r2 n k :
  (0 < n)%nat → 0 ≤ k → r1 ≤ r2 → ceil_scaled r1 n k ≤ ceil_scaled r2 n k.
Proof.
  intros Hn Hk Hr.
  pose proof (ceil_scaled_spec r1 n k Hn). pose proof (ceil_scaled_spec r2 n k Hn).
  nia.
Qed.

Lemma clip_range lo hi x : lo ≤ hi → lo ≤ clip lo hi x ≤ hi.
Proof. unfold clip. lia. Qed.

Lemma clip_id lo hi x : lo ≤ x ≤ hi → clip lo hi x = x.
Proof. unfold clip. lia. Qed.

Lemma clip_mono lo hi x y : x ≤ y → clip lo hi x ≤ clip lo hi y.
Proof. unfold clip. lia. Qed.

(** ** The prior snapshot *)

Lemma prior_map_foldl (m : gmap string Prior.t) prior fid :
  foldl (λ m r, <[Prior.fund_id r := r]> m) m prior !! fid
  = match prior_row prior fid with Some r => Some r | None => m !! fid end.
Proof.
  revert m. induction prior as [|r prior IH]; intros m; simpl; [done|].
  rewrite IH. unfold prior_row. rewrite filter_cons.
  destruct (decide (Prior.fund_id r = fid)) as [Hr|Hr].
  - rewrite last_cons. destruct (last _); [done|]. by rewrite Hr, lookup_insert_eq.
  - destruct (last _); [done|]. by rewrite lookup_insert_ne.
Qed.

Lemma prior_map_lookup prior fid : prior_map prior !! fid = prior_row prior fid.
Proof.
  unfold prior_map. rewrite prior_map_foldl, lookup_empty.
  by destruct (prior_row prior fid).
Qed.

Lemma prior_row_Some prior fid r :
  prior_row prior fid = Some r → r ∈ prior ∧ Prior.fund_id r = fid.
Proof.
  intros H. apply last_Some_elem_of in H.
  by apply list_elem_of_filter in H as [? ?].
Qed.

Lemma prior_row_None prior fid :
  fid ∉ Prior.fund_id <$> prior → prior_row prior fid = None.
Proof.
  intros Hn. destruct (prior_row prior fid) as [r|] eqn:Hr; [|done].
  apply prior_row_Some in Hr as [Hin <-]. exfalso. apply Hn.
  by apply list_elem_of_fmap_2.
Qed.

Lemma py_or_0 v : py_or v 0 = default 0 v.
Proof. destruct v as [x|]; simpl; [|done]. by destruct (decide (x = 0)). Qed.

Lemma py_or_99 v : py_or v 99 = 1 ↔ v = Some 1.
Proof.
  destruct v as [x|]; simpl; [|done].
  destruct (decide (x = 0)); split; intros H; simplify_eq; done.
Qed.

(** ** One step of the inner loop *)

Lemma period_step_streak sc wd use_q row prev p :
  (period_step sc wd use_q row prev p).1
  = if now_top use_q row p then py_or (prev ≫= Prior.streak p) 0 + 1 else 0.
Proof.
  unfold period_step, now_top.
  destruct use_q; simpl; repeat case_match; done.
Qed.

Lemma period_step_alerts sc wd use_q row prev p :
  (period_step sc wd use_q row prev p).2
  = if was_top use_q prev p && negb (now_top use_q row p)
    then [drop_alert sc wd use_q row prev p] else [].
Proof.
  unfold period_step, now_top, was_top, drop_alert, in_top.
  assert (∀ v, bool_decide (py_or v 99 = 1) = bool_decide (v = Some 1)) as Hb.
  { intros v. apply bool_decide_ext, py_or_99. }
  destruct use_q; simpl; rewrite Hb; repeat case_match; done.
Qed.

(** ** The rows and the result of [rank_sector] *)

Lemma rank_of_make_column raw i : rank_of (make_column raw) i = rank_of raw i.
Proof. unfold rank_of. by rewrite dropna_make_column. Qed.

Lemma pool_size_make_column raw : pool_size (make_column raw) = pool_size raw.
Proof. by rewrite <- !length_dropna, dropna_make_column. Qed.

Section rows.
Context (perfs : list Perf.t) (i : nat) (perf : Perf.t).
Hypothesis Hi : perfs !! i = Some perf.

Let row := row_at (make_df perfs) i perf.

Lemma row_index_lt p : (i < length (make_column (raw_returns p perfs)))%nat.
Proof.
  rewrite length_make_column. unfold raw_returns. rewrite length_fmap.
  by eapply lookup_lt_Some.
Qed.

Lemma row_at_rank p : row_rank row p = rank_of (raw_returns p perfs) i.
Proof.
  simpl. change (Perf.ret p <$> perfs) with (raw_returns p perfs).
  rewrite assign_ranks_lookup by apply row_index_lt. simpl.
  apply rank_of_make_column.
Qed.

Lemma row_at_decile p :
  row_decile row p =
    if (pool_size (raw_returns p perfs) <? 2)%nat then None
    else (λ r, clip 1 10 (ceil_scaled r (pool_size (raw_returns p perfs)) 10))
           <$> rank_of (raw_returns p perfs) i.
Proof.
  simpl. change (Perf.ret p <$> perfs) with (raw_returns p perfs).
  rewrite assign_deciles_lookup by apply row_index_lt. simpl.
  by rewrite pool_size_make_column, rank_of_make_column.
Qed.

Lemma row_at_quartile p :
  row_quartile row p =
    if (pool_size (raw_returns p perfs) <? 2)%nat then None
    else (λ r, clip 1 4 (ceil_scaled r (pool_size (raw_returns p perfs)) 4))
           <$> rank_of (raw_returns p perfs) i.
Proof.
  simpl. change (Perf.ret p <$> perfs) with (raw_returns p perfs).
  rewrite assign_quartiles_lookup by apply row_index_lt. simpl.
  by rewrite pool_size_make_column, rank_of_make_column.
Qed.

Lemma row_at_return p :
  row_return row p =
    match infer_dtype (raw_returns p perfs) with
    | dt_object => Perf.ret p perf
    | dt_float64 => none_to_nan (Perf.ret p perf)
    end.
Proof.
  simpl. change (Perf.ret p <$> perfs) with (raw_returns p perfs).
  unfold make_column, raw_returns.
  destruct (infer_dtype _); rewrite ?list_lookup_fmap, Hi; done.
Qed.

Lemma raw_returns_lookup p : raw_returns p perfs !! i = Some (Perf.ret p perf).
Proof. unfold raw_returns. by rewrite list_lookup_fmap, Hi. Qed.

End rows.

Lemma rank_sector_Ok sc sn perfs wd prior qt mf res :
  rank_sector sc sn perfs wd prior qt mf = Ok res →
  (res = mkResult [] [] [] false (Z.of_nat (length perfs)) ∧
   (perfs = [] ∨ Z.of_nat (length perfs) < mf)) ∨
  (perfs ≠ [] ∧ mf ≤ Z.of_nat (length perfs) ∧
   ∃ t3, top3_of sc sn (make_df perfs) = Ok t3 ∧
     res = mkResult
       ((process_row sc wd (Z.of_nat (length perfs) <? qt) (Z.of_nat (length perfs))
           (prior_map prior) <$> iterrows (make_df perfs)).*2)
       (concat ((process_row sc wd (Z.of_nat (length perfs) <? qt)
           (Z.of_nat (length perfs)) (prior_map prior) <$> iterrows (make_df perfs)).*1))
       t3 (Z.of_nat (length perfs) <? qt) (Z.of_nat (length perfs))).
Proof.
  unfold rank_sector. destruct perfs as [|perf0 perfs'].
  { intros [= <-]. left. eauto. }
  set (perfs := perf0 :: perfs'). intros H.
  destruct (Z.of_nat (length perfs) <? mf) eqn:Hn.
  { injection H as <-. left. split; [done|]. right. lia. }
  right. split; [done|]. split; [lia|].
  destruct (top3_of sc sn (make_df perfs)) as [t3|e]; [|done].
  injection H as <-. eauto.
Qed.

Lemma rank_sector_rankings sc sn perfs wd prior qt mf res :
  rank_sector sc sn perfs wd prior qt mf = Ok res →
  Z.of_nat (length perfs) < mf ∧ rankings res = [] ∨
  rankings res =
    imap (λ i perf,
      (process_row sc wd (use_quartiles res) (Z.of_nat (length perfs))
         (prior_map prior) (row_at (make_df perfs) i perf)).2) perfs.
Proof.
  intros H. apply rank_sector_Ok in H as [[-> [->| Hlt]]|(Hne & Hge & t3 & Ht3 & ->)]; simpl.
  - by right.
  - left. done.
  - right. unfold iterrows. simpl. by rewrite <- list_fmap_compose, fmap_imap.
Qed.

Lemma rank_sector_alerts sc sn perfs wd prior qt mf res :
  rank_sector sc sn perfs wd prior qt mf = Ok res →
  Z.of_nat (length perfs) < mf ∧ alerts res = [] ∨
  alerts res =
    concat (imap (λ i perf,
      (process_row sc wd (use_quartiles res) (Z.of_nat (length perfs))
         (prior_map prior) (row_at (make_df perfs) i perf)).1) perfs).
Proof.
  intros H. apply rank_sector_Ok in H as [[-> [->| Hlt]]|(Hne & Hge & t3 & Ht3 & ->)]; simpl.
  - by right.
  - left. done.
  - right. unfold iterrows. simpl. by rewrite <- list_fmap_compose, fmap_imap.
Qed.

Lemma rankings_lookup sc sn perfs wd prior qt mf res i r :
  rank_sector sc sn perfs wd prior qt mf = Ok res →
  rankings res !! i = Some r →
  ∃ perf, perfs !! i = Some perf ∧
    r = (process_row sc wd (use_quartiles res) (Z.of_nat (length perfs))
           (prior_map prior) (row_at (make_df perfs) i perf)).2.
Proof.
  intros H Hr. apply rank_sector_rankings in H as [[_ H]|H]; rewrite H in Hr.
  - by rewrite lookup_nil in Hr.
  - rewrite list_lookup_imap in Hr. apply fmap_Some in Hr as (perf & ? & ?). eauto.
Qed.

Lemma rankings_lookup_perf sc sn perfs wd prior qt mf res i perf :
  rank_sector sc sn perfs wd prior qt mf = Ok res →
  mf ≤ Z.of_nat (length perfs) →
  perfs !! i = Some perf →
  rankings res !! i =
    Some (process_row sc wd (use_quartiles res) (Z.of_nat (length perfs))
            (prior_map prior) (row_at (make_df perfs) i perf)).2.
Proof.
  intros H Hge Hi. apply rank_sector_rankings in H as [[? _]|H]; [lia|].
  by rewrite H, list_lookup_imap, Hi.
Qed.

(** ** Population below [min_funds] *)

(** C7: when the population is below [min_funds], [rank_sector] returns
    empty rankings, empty alerts and an empty top-3 list, and still reports
    the population. *)
Theorem below_min_funds_empty sc sn perfs wd prior qt mf :
  Z.of_nat (length perfs) < mf →
  ∃ res, rank_sector sc sn perfs wd prior qt mf = Ok res ∧
    rankings res = [] ∧ alerts res = [] ∧ top3 res = [] ∧
    n_funds res = Z.of_nat (length perfs).
Proof.
  intros Hn. exists (mkResult [] [] [] false (Z.of_nat (length perfs))).
  split; [|done]. unfold rank_sector. destruct perfs as [|perf perfs]; [done|].
  by rewrite (proj2 (Z.ltb_lt _ _) Hn).
Qed.

Lemma below_min_funds_empty_witness :
  Z.of_nat (length scenario_A) < default_min_funds ∧
  ∃ res, rank_sector "S" "Sector" scenario_A "2026-02-16" [] 20 default_min_funds = Ok res ∧
    rankings res = [] ∧ alerts res = [] ∧ top3 res = [] ∧ n_funds res = 4.
Proof.
  split; [reflexivity|].
  apply (below_min_funds_empty "S" "Sector" scenario_A "2026-02-16" [] 20 5).
  reflexivity.
Defined.

(** ** Tier mode and streaks *)

Lemma process_row_top_tier sc wd uq n pmap row p :
  top_tier uq (process_row sc wd uq n pmap row).2 p = now_top uq row p.
Proof. unfold top_tier, now_top, in_top. by destruct uq, p. Qed.

Lemma process_row_fund_id sc wd uq n pmap row :
  Ranking.fund_id (process_row sc wd uq n pmap row).2 = Perf.fund_id (row_perf row).
Proof. done. Qed.

Lemma prev_streak_prior prior fid p :
  py_or (prior_map prior !! fid ≫= Prior.streak p) 0 = prior_streak prior fid p.
Proof.
  rewrite py_or_0, prior_map_lookup. unfold prior_streak.
  by destruct (prior_row prior fid).
Qed.

Lemma process_row_streak sc wd uq n prior row p :
  Ranking.streak p (process_row sc wd uq n (prior_map prior) row).2
  = if now_top uq row p
    then prior_streak prior (Perf.fund_id (row_perf row)) p + 1 else 0.
Proof.
  destruct p; simpl; by rewrite period_step_streak, prev_streak_prior.
Qed.

Lemma ranking_streak_rule sc sn perfs wd prior qt mf res r p :
  rank_sector sc sn perfs wd prior qt mf = Ok res →
  r ∈ rankings res →
  Ranking.streak p r =
    if top_tier (use_quartiles res) r p
    then prior_streak prior (Ranking.fund_id r) p + 1 else 0.
Proof.
  intros H Hr. apply list_elem_of_lookup_1 in Hr as [i Hr].
  destruct (rankings_lookup _ _ _ _ _ _ _ _ _ _ H Hr) as (perf & Hi & ->).
  by rewrite process_row_streak, process_row_top_tier.
Qed.

Lemma elem_of_concat {A} (x : A) (ls : list (list A)) :
  x ∈ concat ls ↔ ∃ l, x ∈ l ∧ l ∈ ls.
Proof.
  induction ls as [|l ls IH]; simpl.
  { rewrite elem_of_nil. split; [done|]. intros (l & _ & Hl). by apply elem_of_nil in Hl. }
  rewrite elem_of_app, IH. split.
  - intros [Hx|(l' & Hx & Hl')]; [exists l|exists l']; rewrite elem_of_cons; eauto.
  - intros (l' & Hx & Hl'). apply elem_of_cons in Hl' as [->|Hl']; eauto.
Qed.

Lemma alert_type_rule sc sn perfs wd prior qt mf res a :
  rank_sector sc sn perfs wd prior qt mf = Ok res →
  a ∈ alerts res →
  Alert.alert_type a = (if use_quartiles res then "quartile_drop" else "decile_drop")
  ∧ Alert.prev_decile a = 1 ∧ Alert.curr_decile a ≠ Some 1.
Proof.
  intros H Ha. apply rank_sector_alerts in H as [[_ H]|H]; rewrite H in Ha.
  { by apply elem_of_nil in Ha. }
  apply elem_of_concat in Ha as (l & Ha & Hl).
  apply elem_of_lookup_imap in Hl as (i & perf & -> & Hi).
  simpl in Ha. rewrite !elem_of_app in Ha.
  assert (∀ q, a ∈ (period_step sc wd (use_quartiles res)
                      (row_at (make_df perfs) i perf)
                      (prior_map prior !! Perf.fund_id perf) q).2 →
    Alert.alert_type a = (if use_quartiles res then "quartile_drop" else "decile_drop")
    ∧ Alert.prev_decile a = 1 ∧ Alert.curr_decile a ≠ Some 1) as Hq.
  { intros q. rewrite period_step_alerts.
    destruct (was_top _ _ _); simpl; [|by rewrite elem_of_nil].
    destruct (now_top _ _ _) eqn:Hnow; simpl; [by rewrite elem_of_nil|].
    rewrite list_elem_of_singleton. intros ->. split; [done|]. split; [done|].
    unfold now_top, in_top in Hnow. simpl.
    destruct (use_quartiles res); by apply bool_decide_eq_false in Hnow. }
  destruct Ha as [Ha|[Ha|[Ha|Ha]]]; [by eapply Hq..|by apply elem_of_nil in Ha].
Qed.

(** C3, as the code has it: the returned [use_quartiles] flag is true
    exactly when the sector is not empty, its population [n] reaches
    [min_funds] and [n] is strictly below [quartile_threshold] (for a
    population below [min_funds] the flag is false); under that mode top
    tier, as used for the streaks and the alerts, is quartile 1, otherwise
    decile 1. *)
Theorem use_quartiles_mode sc sn perfs wd prior qt mf res :
  rank_sector sc sn perfs wd prior qt mf = Ok res →
  (use_quartiles res = true ↔
     0 < Z.of_nat (length perfs) ∧ mf ≤ Z.of_nat (length perfs)
     ∧ Z.of_nat (length perfs) < qt) ∧
  (∀ r p, r ∈ rankings res →
     Ranking.streak p r =
       if bool_decide ((if use_quartiles res then Ranking.quartile p r
                        else Ranking.decile p r) = Some 1)
       then prior_streak prior (Ranking.fund_id r) p + 1 else 0) ∧
  (∀ a, a ∈ alerts res →
     Alert.alert_type a = (if use_quartiles res then "quartile_drop" else "decile_drop")
     ∧ Alert.curr_decile a ≠ Some 1).
Proof.
  intros H. split; [|split].
  - destruct (rank_sector_Ok _ _ _ _ _ _ _ _ H)
      as [[-> [->|Hlt]]|(Hne & Hge & t3 & _ & ->)]; cbn [use_quartiles].
    + split; [done|]. cbn [length]. lia.
    + split; [done|lia].
    + assert (0 < Z.of_nat (length perfs)).
      { destruct perfs; [done|]. rewrite length_cons. lia. }
      rewrite Z.ltb_lt. lia.
  - intros r p Hr. by eapply ranking_streak_rule.
  - intros a Ha. by edestruct alert_type_rule as (? & ? & ?).
Qed.

Lemma use_quartiles_mode_witness :
  (use_quartiles result_B = true ↔
     0 < Z.of_nat (length scenario_B) ∧ 5 ≤ Z.of_nat (length scenario_B)
     ∧ Z.of_nat (length scenario_B) < 20) ∧
  (∀ r p, r ∈ rankings result_B →
     Ranking.streak p r =
       if bool_decide ((if use_quartiles result_B then Ranking.quartile p r
                        else Ranking.decile p r) = Some 1)
       then prior_streak prior_B (Ranking.fund_id r) p + 1 else 0) ∧
  (∀ a, a ∈ alerts result_B →
     Alert.alert_type a = (if use_quartiles result_B then "quartile_drop" else "decile_drop")
     ∧ Alert.curr_decile a ≠ Some 1).
Proof.
  apply (use_quartiles_mode "S" "Sector" scenario_B "2026-02-16" prior_B 20 5).
  vm_compute. reflexivity.
Defined.

(** The flag is false for four funds, although four is below the default
    threshold of 20. *)
Lemma use_quartiles_below_min_funds :
  ¬ (∀ perfs res,
       rank_sector "S" "Sector" perfs "2026-02-16" []
         default_quartile_threshold default_min_funds = Ok res →
       (use_quartiles res = true ↔
          Z.of_nat (length perfs) < default_quartile_threshold)).
Proof.
  intros H. specialize (H scenario_A _ eq_refl) as [_ H].
  discriminate H. reflexivity.
Qed.

(** ** Null ranking fields *)

Lemma process_row_decile sc wd uq n pmap row p :
  Ranking.decile p (process_row sc wd uq n pmap row).2 = row_decile row p.
Proof. by destruct p. Qed.

Lemma process_row_quartile sc wd uq n pmap row p :
  Ranking.quartile p (process_row sc wd uq n pmap row).2 = row_quartile row p.
Proof. by destruct p. Qed.

Lemma process_row_rank sc wd uq n pmap row p :
  Ranking.rank p (process_row sc wd uq n pmap row).2 = row_rank row p.
Proof. by destruct p. Qed.

Lemma rank_of_notna s i v :
  s !! i = Some v → (rank_of s i = None ↔ notna v = false).
Proof.
  intros Hv. rewrite eq_None_not_Some, rank_of_is_Some, Hv. split.
  - intros Hn. destruct v as [| |q]; try done. exfalso. apply Hn. eauto.
  - intros Hn [q [= ->]]. done.
Qed.

(** The fields of a ranking row in terms of the raw returns of the sector. *)
Lemma ranking_fields sc sn perfs wd prior qt mf res i r perf p :
  rank_sector sc sn perfs wd prior qt mf = Ok res →
  rankings res !! i = Some r → perfs !! i = Some perf →
  Ranking.fund_id r = Perf.fund_id perf ∧
  Ranking.rank p r = rank_of (raw_returns p perfs) i ∧
  Ranking.decile p r =
    (if (pool_size (raw_returns p perfs) <? 2)%nat then None
     else (λ k, clip 1 10 (ceil_scaled k (pool_size (raw_returns p perfs)) 10))
            <$> rank_of (raw_returns p perfs) i) ∧
  Ranking.quartile p r =
    (if (pool_size (raw_returns p perfs) <? 2)%nat then None
     else (λ k, clip 1 4 (ceil_scaled k (pool_size (raw_returns p perfs)) 4))
            <$> rank_of (raw_returns p perfs) i).
Proof.
  intros H Hr Hi.
  destruct (rankings_lookup _ _ _ _ _ _ _ _ _ _ H Hr) as (perf' & Hi' & ->).
  assert (perf' = perf) as -> by congruence.
  rewrite process_row_rank, process_row_decile, process_row_quartile.
  by rewrite (row_at_rank _ _ _ Hi), (row_at_decile _ _ _ Hi), (row_at_quartile _ _ _ Hi).
Qed.

(** C2, as the code has it: for a period whose valid pool has fewer than 2
    members, every fund of the sector receives a null decile and a null
    quartile; the rank is null for every fund whose return is null, and
    the single member of a one-member pool receives rank 1. *)
Theorem small_pool_fields sc sn perfs wd prior qt mf res p i r perf :
  rank_sector sc sn perfs wd prior qt mf = Ok res →
  (pool_size (raw_returns p perfs) < 2)%nat →
  rankings res !! i = Some r → perfs !! i = Some perf →
  Ranking.decile p r = None ∧ Ranking.quartile p r = None ∧
  Ranking.rank p r = if notna (Perf.ret p perf) then Some 1 else None.
Proof.
  intros H Hpool Hr Hi.
  destruct (ranking_fields _ _ _ _ _ _ _ _ _ _ _ p H Hr Hi) as (_ & -> & -> & ->).
  rewrite (proj2 (Nat.ltb_lt _ _) Hpool). split; [done|]. split; [done|].
  pose proof (raw_returns_lookup _ _ _ Hi p) as Hv.
  destruct (notna (Perf.ret p perf)) eqn:Hna.
  - destruct (rank_of _ i) as [k|] eqn:Hk.
    + apply rank_of_bounds in Hk. f_equal. lia.
    + apply (rank_of_notna _ _ _ Hv) in Hk. congruence.
  - by apply (rank_of_notna _ _ _ Hv).
Qed.

Lemma small_pool_fields_witness :
  Ranking.decile P1m (ranking_at result_single 2) = None ∧
  Ranking.quartile P1m (ranking_at result_single 2) = None ∧
  Ranking.rank P1m (ranking_at result_single 2)
  = if notna (Perf.ret P1m (fund "c" (PyNum 3) (PyNum 3) (PyNum 15)))
    then Some 1 else None.
Proof.
  apply (small_pool_fields "S" "Sector" scenario_single "2026-02-16" [] 20 5
           result_single P1m 2).
  - vm_compute. reflexivity.
  - vm_compute. lia.
  - vm_compute. reflexivity.
  - reflexivity.
Defined.

(** The single fund with a 1-month return is ranked 1, not left null. *)
Lemma single_member_pool_is_ranked :
  rank_sector "S" "Sector" scenario_single "2026-02-16" [] 20 5 = Ok result_single ∧
  (pool_size (raw_returns P1m scenario_single) < 2)%nat ∧
  ¬ (∀ r, r ∈ rankings result_single → Ranking.rank P1m r = None).
Proof.
  split; [vm_compute; reflexivity|]. split; [vm_compute; lia|].
  intros H. specialize (H (ranking_at result_single 2)).
  assert (ranking_at result_single 2 ∈ rankings result_single) as Hin.
  { apply (list_elem_of_lookup_2 _ 2). vm_compute. reflexivity. }
  specialize (H Hin). vm_compute in H. discriminate H.
Qed.

(** C4, as the code has it: a non-null decile lies in [1,10], a non-null
    quartile in [1,4] and a non-null rank is at least 1; the rank is null
    exactly when the fund's return for the period is null; the decile and
    the quartile are null exactly when the return is null or fewer than 2
    funds of the sector have a return for the period. *)
Theorem ranking_fields_invariant sc sn perfs wd prior qt mf res p i r perf :
  rank_sector sc sn perfs wd prior qt mf = Ok res →
  rankings res !! i = Some r → perfs !! i = Some perf →
  (∀ d, Ranking.decile p r = Some d → 1 ≤ d ≤ 10) ∧
  (∀ c, Ranking.quartile p r = Some c → 1 ≤ c ≤ 4) ∧
  (∀ k, Ranking.rank p r = Some k → 1 ≤ k) ∧
  (Ranking.rank p r = None ↔ notna (Perf.ret p perf) = false) ∧
  (Ranking.decile p r = None ↔
     notna (Perf.ret p perf) = false ∨ (pool_size (raw_returns p perfs) < 2)%nat) ∧
  (Ranking.quartile p r = None ↔
     notna (Perf.ret p perf) = false ∨ (pool_size (raw_returns p perfs) < 2)%nat).
Proof.
  intros H Hr Hi.
  destruct (ranking_fields _ _ _ _ _ _ _ _ _ _ _ p H Hr Hi) as (_ & -> & -> & ->).
  pose proof (raw_returns_lookup _ _ _ Hi p) as Hv.
  pose proof (rank_of_notna _ _ _ Hv) as Hnull.
  split; [|split; [|split; [|split; [|split]]]].
  - intros d. case_match; [done|]. intros Hd.
    apply fmap_Some in Hd as (k & _ & ->). by apply clip_range.
  - intros c. case_match; [done|]. intros Hc.
    apply fmap_Some in Hc as (k & _ & ->). by apply clip_range.
  - intros k Hk. apply rank_of_bounds in Hk. lia.
  - done.
  - destruct (pool_size _ <? 2)%nat eqn:Hp.
    + apply Nat.ltb_lt in Hp. split; [by right|done].
    + apply Nat.ltb_ge in Hp. rewrite fmap_None, Hnull.
      split; [by left|]. intros [?|?]; [done|lia].
  - destruct (pool_size _ <? 2)%nat eqn:Hp.
    + apply Nat.ltb_lt in Hp. split; [by right|done].
    + apply Nat.ltb_ge in Hp. rewrite fmap_None, Hnull.
      split; [by left|]. intros [?|?]; [done|lia].
Qed.

Lemma ranking_fields_invariant_witness :
  (∀ d, Ranking.decile P6m (ranking_at result_B 3) = Some d → 1 ≤ d ≤ 10) ∧
  (∀ c, Ranking.quartile P6m (ranking_at result_B 3) = Some c → 1 ≤ c ≤ 4) ∧
  (∀ k, Ranking.rank P6m (ranking_at result_B 3) = Some k → 1 ≤ k) ∧
  (Ranking.rank P6m (ranking_at result_B 3) = None ↔
     notna (Perf.ret P6m (fund "d" (PyNum 4) (PyNum 1) PyNone)) = false) ∧
  (Ranking.decile P6m (ranking_at result_B 3) = None ↔
     notna (Perf.ret P6m (fund "d" (PyNum 4) (PyNum 1) PyNone)) = false
     ∨ (pool_size (raw_returns P6m scenario_B) < 2)%nat) ∧
  (Ranking.quartile P6m (ranking_at result_B 3) = None ↔
     notna (Perf.ret P6m (fund "d" (PyNum 4) (PyNum 1) PyNone)) = false
     ∨ (pool_size (raw_returns P6m scenario_B) < 2)%nat).
Proof.
  apply (ranking_fields_invariant "S" "Sector" scenario_B "2026-02-16" prior_B 20 5
           result_B P6m 3).
  - vm_compute. reflexivity.
  - vm_compute. reflexivity.
  - reflexivity.
Defined.

(** A fund with a 1-month return, alone in its pool, has a null decile. *)
Lemma lone_return_null_decile :
  rank_sector "S" "Sector" scenario_single "2026-02-16" [] 20 5 = Ok result_single ∧
  scenario_single !! 2%nat = Some (fund "c" (PyNum 3) (PyNum 3) (PyNum 15)) ∧
  notna (Perf.ret P1m (fund "c" (PyNum 3) (PyNum 3) (PyNum 15))) = true ∧
  Ranking.fund_id (ranking_at result_single 2) = "c" ∧
  Ranking.decile P1m (ranking_at result_single 2) = None ∧
  Ranking.quartile P1m (ranking_at result_single 2) = None.
Proof. vm_compute. repeat split; reflexivity. Qed.

(** ** Ranks, deciles and quartiles of a valid pool *)

Lemma ceil_scaled_ceil_div r n k :
  (0 < n)%nat → ceil_scaled r n k = ceil_div (r * k) (Z.of_nat n).
Proof.
  intros Hn. pose proof (ceil_scaled_spec r n k Hn) as Hc.
  unfold ceil_div.
  pose proof (Z.mul_div_le (- (r * k)) (Z.of_nat n) ltac:(lia)).
  pose proof (Z.mul_succ_div_gt (- (r * k)) (Z.of_nat n) ltac:(lia)).
  nia.
Qed.

Lemma ceil_div_spec a b :
  0 < b → b * (ceil_div a b - 1) < a ≤ b * ceil_div a b.
Proof.
  intros Hb. unfold ceil_div.
  pose proof (Z.mul_div_le (- a) b Hb).
  pose proof (Z.mul_succ_div_gt (- a) b Hb).
  lia.
Qed.

(** *** The rank without the sort *)

Lemma filter_none {B} (P : B → Prop) `{!∀ b, Decision (P b)} (l : list B) :
  Forall (λ b, ¬ P b) l → filter P l = [].
Proof.
  induction 1 as [|b l Hb _ IH]; [done|]. by rewrite filter_cons_False.
Qed.

Lemma valid_pool_from k s :
  omap (λ jv : nat * pyfloat,
          match jv.2 with PyNum q => Some (jv.1, q) | _ => None end)
       (imap (λ j v, ((k + j)%nat, v)) s)
  = dropna_from k s.
Proof.
  revert k. induction s as [|v s IH]; intros k; [done|].
  cbn [imap omap list_omap].
  rewrite (imap_ext _ (λ j v, ((S k + j)%nat, v))) by (intros; simpl; f_equal; lia).
  fold (@omap list _ _ _ (λ jv : nat * pyfloat,
          match jv.2 with PyNum q => Some (jv.1, q) | _ => None end)
        (imap (λ j v, ((S k + j)%nat, v)) s)).
  rewrite IH. destruct v; simpl; [done..|]. by rewrite Nat.add_0_r.
Qed.

Lemma valid_pool_dropna s : valid_pool s = dropna s.
Proof. exact (valid_pool_from 0 s). Qed.

(** In a strictly sorted list the position of an entry is the number of
    entries that come before it in the order. *)
Lemma sorted_count l pos x :
  StronglySorted before l → l !! pos = Some x →
  length (filter (λ y, before y x) l) = pos.
Proof.
  intros Hs. revert pos. induction Hs as [|z l Hs IH Hz]; intros pos Hpos.
  { by rewrite lookup_nil in Hpos. }
  rewrite Forall_forall in Hz.
  destruct pos as [|pos]; simpl in Hpos.
  - injection Hpos as ->.
    rewrite filter_cons_False by apply before_irrefl.
    rewrite filter_none; [done|]. apply Forall_forall. intros y Hy Hyx.
    apply (before_irrefl x). eapply before_trans; [by apply Hz|done].
  - rewrite filter_cons_True by (apply Hz; by eapply list_elem_of_lookup_2).
    simpl. f_equal. by apply IH.
Qed.

Lemma rank_of_spec_rank s i : rank_of s i = spec_rank s i.
Proof.
  unfold spec_rank. destruct (s !! i) as [v|] eqn:Hi.
  - destruct v as [| |q]; [by apply (rank_of_notna s i _ Hi)..|].
    pose proof (proj2 (elem_of_sorted_pool s i q) Hi) as Hin.
    apply list_elem_of_lookup_1 in Hin as [pos Hpos].
    rewrite (proj2 (rank_of_Some s i (Z.of_nat pos + 1))) by eauto.
    do 3 f_equal. unfold better_than.
    rewrite valid_pool_dropna, <- (sort_desc_perm (dropna s)).
    symmetry. apply sorted_count; [apply sorted_pool_sorted|done].
  - destruct (rank_of s i) as [r|] eqn:Hr; [|done].
    assert (is_Some (rank_of s i)) as Hs by (rewrite Hr; by eexists).
    apply rank_of_is_Some in Hs as [q Hq]. congruence.
Qed.

Lemma tier_spec_tier k s i :
  (if (pool_size s <? 2)%nat then None
   else (λ r, clip 1 k (ceil_scaled r (pool_size s) k)) <$> rank_of s i)
  = spec_tier k s i.
Proof.
  unfold spec_tier. rewrite rank_of_spec_rank.
  destruct (pool_size s <? 2)%nat eqn:Hp; [done|].
  apply Nat.ltb_ge in Hp.
  destruct (spec_rank s i) as [r|]; [|done]. simpl.
  by rewrite ceil_scaled_ceil_div by lia.
Qed.

(** A ranking row against the specification's rank, decile and quartile of
    the input record at the same position. *)
Lemma ranking_spec_fields sc sn perfs wd prior qt mf res i r perf p :
  rank_sector sc sn perfs wd prior qt mf = Ok res →
  rankings res !! i = Some r → perfs !! i = Some perf →
  Ranking.fund_id r = Perf.fund_id perf ∧
  Ranking.rank p r = spec_rank (raw_returns p perfs) i ∧
  Ranking.decile p r = spec_tier 10 (raw_returns p perfs) i ∧
  Ranking.quartile p r = spec_tier 4 (raw_returns p perfs) i ∧
  top_tier (use_quartiles res) r p
    = spec_top_tier (use_quartiles res) (raw_returns p perfs) i.
Proof.
  intros H Hr Hi.
  destruct (ranking_fields _ _ _ _ _ _ _ _ _ _ _ p H Hr Hi) as (Hf & Hk & Hd & Hq).
  rewrite tier_spec_tier in Hd, Hq. rewrite rank_of_spec_rank in Hk.
  split; [done|]. split; [done|]. split; [done|]. split; [done|].
  unfold top_tier, spec_top_tier. destruct (use_quartiles res); by rewrite ?Hd, ?Hq.
Qed.

(** C5: for a column whose valid pool has at least 2 members, the pool
    sorted by return descending, exact ties in input order, is a
    permutation of the entries of the column that hold a return, strictly
    in that order; every entry that holds a return has a position in it,
    which is the number of entries that rank strictly better (a higher
    return, or the same return and an earlier input position); its rank is
    that position counted from 1, its decile is [ceil(rank / poolSize * 10)]
    clamped to [1,10] and its quartile is [ceil(rank / poolSize * 4)]
    clamped to [1,4]. *)
Theorem pool_ranks_deciles_quartiles (s : list pyfloat) :
  (2 ≤ pool_size s)%nat →
  sort_desc (dropna s) ≡ₚ valid_pool s ∧
  StronglySorted before (sort_desc (dropna s)) ∧
  (∀ pos i q, sort_desc (dropna s) !! pos = Some (i, q) → s !! i = Some (PyNum q)) ∧
  (∀ i q, s !! i = Some (PyNum q) →
     ∃ pos, sort_desc (dropna s) !! pos = Some (i, q) ∧
       pos = better_than s i q ∧
       assign_ranks s !! i = Some (Some (Z.of_nat pos + 1)) ∧
       assign_deciles s !! i =
         Some (Some (clip 1 10 (ceil_div ((Z.of_nat pos + 1) * 10)
                                  (Z.of_nat (pool_size s))))) ∧
       assign_quartiles s !! i =
         Some (Some (clip 1 4 (ceil_div ((Z.of_nat pos + 1) * 4)
                                 (Z.of_nat (pool_size s)))))).
Proof.
  intros Hpool.
  split; [by rewrite valid_pool_dropna, sort_desc_perm|].
  split; [apply sorted_pool_sorted|]. split.
  { intros pos i q Hpos. by apply list_elem_of_lookup_2, elem_of_sorted_pool in Hpos. }
  intros i q Hi.
  pose proof (proj2 (elem_of_sorted_pool s i q) Hi) as Hin.
  apply list_elem_of_lookup_1 in Hin as [pos Hpos].
  assert (i < length s)%nat as Hlt by by eapply lookup_lt_Some.
  assert (rank_of s i = Some (Z.of_nat pos + 1)) as Hrank.
  { apply rank_of_Some. eauto. }
  exists pos. split; [done|]. split.
  { pose proof (rank_of_spec_rank s i) as Hspec. unfold spec_rank in Hspec.
    rewrite Hi, Hrank in Hspec. injection Hspec as Hspec. lia. }
  rewrite assign_ranks_lookup, assign_deciles_lookup, assign_quartiles_lookup by done.
  rewrite (proj2 (Nat.ltb_ge _ _) Hpool), Hrank. simpl.
  by rewrite !ceil_scaled_ceil_div by lia.
Qed.

Lemma pool_ranks_deciles_quartiles_witness :
  sort_desc (dropna returns_B6) ≡ₚ valid_pool returns_B6 ∧
  StronglySorted before (sort_desc (dropna returns_B6)) ∧
  (∀ pos i q, sort_desc (dropna returns_B6) !! pos = Some (i, q) →
              returns_B6 !! i = Some (PyNum q)) ∧
  (∀ i q, returns_B6 !! i = Some (PyNum q) →
     ∃ pos, sort_desc (dropna returns_B6) !! pos = Some (i, q) ∧
       pos = better_than returns_B6 i q ∧
       assign_ranks returns_B6 !! i = Some (Some (Z.of_nat pos + 1)) ∧
       assign_deciles returns_B6 !! i =
         Some (Some (clip 1 10 (ceil_div ((Z.of_nat pos + 1) * 10)
                                  (Z.of_nat (pool_size returns_B6))))) ∧
       assign_quartiles returns_B6 !! i =
         Some (Some (clip 1 4 (ceil_div ((Z.of_nat pos + 1) * 4)
                                 (Z.of_nat (pool_size returns_B6)))))).
Proof.
  apply (pool_ranks_deciles_quartiles returns_B6). vm_compute. lia.
Defined.

(** C6: every record of a ranked sector has its ranking row, at the same
    position and with the same fund id, and for each period the streak of
    that row is the prior streak of the fund (0 when the fund is absent
    from the prior snapshot or its row holds no streak for the period)
    plus 1 when the fund is top tier this week under the current mode, and
    0 otherwise.  Top tier is that of the specification: the fund holds a
    return, the pool of the period has at least 2 members, and the
    quartile (sectors below [quartile_threshold]) or the decile computed
    from the number of funds ranking strictly better is 1. *)
Theorem streak_recurrence sc sn perfs wd prior qt mf res :
  rank_sector sc sn perfs wd prior qt mf = Ok res →
  mf ≤ Z.of_nat (length perfs) →
  length (rankings res) = length perfs ∧
  (use_quartiles res = true ↔ 0 < Z.of_nat (length perfs) < qt) ∧
  ∀ i perf p, perfs !! i = Some perf →
    ∃ r, rankings res !! i = Some r ∧
      Ranking.fund_id r = Perf.fund_id perf ∧
      Ranking.streak p r =
        (if spec_top_tier (use_quartiles res) (raw_returns p perfs) i
         then prior_streak prior (Perf.fund_id perf) p + 1 else 0) ∧
      (Perf.fund_id perf ∉ Prior.fund_id <$> prior →
         prior_streak prior (Perf.fund_id perf) p = 0) ∧
      (∀ r0, prior_row prior (Perf.fund_id perf) = Some r0 →
         prior_streak prior (Perf.fund_id perf) p = default 0 (Prior.streak p r0)).
Proof.
  intros H Hge.
  assert (∀ i perf, perfs !! i = Some perf → ∃ r, rankings res !! i = Some r) as Hrow.
  { intros i perf Hi. eexists. by apply (rankings_lookup_perf _ _ _ _ _ _ _ _ _ _ H Hge Hi). }
  split; [|split].
  - destruct (rank_sector_rankings _ _ _ _ _ _ _ _ H) as [[Hlt _]| ->]; [lia|].
    by rewrite length_imap.
  - destruct (rank_sector_Ok _ _ _ _ _ _ _ _ H)
      as [[-> [->|Hlt]]|(Hne & _ & t3 & _ & ->)]; cbn [use_quartiles].
    + cbn [length]. split; [done|lia].
    + lia.
    + assert (0 < Z.of_nat (length perfs)).
      { destruct perfs; [done|]. rewrite length_cons. lia. }
      rewrite Z.ltb_lt. lia.
  - intros i perf p Hi. destruct (Hrow i perf Hi) as [r Hr]. exists r.
    split; [done|].
    destruct (ranking_spec_fields _ _ _ _ _ _ _ _ _ _ _ p H Hr Hi)
      as (Hfid & _ & _ & _ & Htop).
    split; [done|]. split.
    { rewrite <- Htop, <- Hfid. apply (ranking_streak_rule _ _ _ _ _ _ _ _ _ p H).
      by eapply list_elem_of_lookup_2. }
    split.
    + intros Hn. unfold prior_streak. by rewrite prior_row_None.
    + intros r0 Hr0. unfold prior_streak. by rewrite Hr0.
Qed.

Lemma streak_recurrence_witness :
  length (rankings result_B) = length scenario_B ∧
  (use_quartiles result_B = true ↔ 0 < Z.of_nat (length scenario_B) < 20) ∧
  ∀ i perf p, scenario_B !! i = Some perf →
    ∃ r, rankings result_B !! i = Some r ∧
      Ranking.fund_id r = Perf.fund_id perf ∧
      Ranking.streak p r =
        (if spec_top_tier (use_quartiles result_B) (raw_returns p scenario_B) i
         then prior_streak prior_B (Perf.fund_id perf) p + 1 else 0) ∧
      (Perf.fund_id perf ∉ Prior.fund_id <$> prior_B →
         prior_streak prior_B (Perf.fund_id perf) p = 0) ∧
      (∀ r0, prior_row prior_B (Perf.fund_id perf) = Some r0 →
         prior_streak prior_B (Perf.fund_id perf) p = default 0 (Prior.streak p r0)).
Proof.
  apply (streak_recurrence "S" "Sector" scenario_B "2026-02-16" prior_B 20 5).
  - vm_compute. reflexivity.
  - vm_compute. discriminate.
Defined.

(** The ranks of [returns_B6]: the two funds returning 12.5 are ranked 2
    and 3 in input order. *)
Example returns_B6_ranks :
  assign_ranks returns_B6 = [Some 2; Some 4; Some 1; None; Some 5; Some 3]
  ∧ assign_deciles returns_B6 = [Some 4; Some 8; Some 2; None; Some 10; Some 6]
  ∧ assign_quartiles returns_B6 = [Some 2; Some 4; Some 1; None; Some 4; Some 3].
Proof. vm_compute. repeat split; reflexivity. Qed.

(** ** Monotonicity *)

Lemma tier_mono n k r1 r2 :
  (0 < n)%nat → 0 ≤ k → r1 ≤ r2 →
  clip 1 k (ceil_scaled r1 n k) ≤ clip 1 k (ceil_scaled r2 n k).
Proof. intros. by apply clip_mono, ceil_scaled_mono. Qed.

(** C9, as the code has it: for two funds of the same sector and period,
    both with a return and both ranked, a strictly higher return gives a
    rank that is not larger; a rank that is not larger gives a decile that
    is not larger and a quartile that is not larger. *)
Theorem rank_decile_quartile_monotone sc sn perfs wd prior qt mf res p
    i j r1 r2 perf1 perf2 q1 q2 k1 k2 :
  rank_sector sc sn perfs wd prior qt mf = Ok res →
  rankings res !! i = Some r1 → rankings res !! j = Some r2 →
  perfs !! i = Some perf1 → perfs !! j = Some perf2 →
  Perf.ret p perf1 = PyNum q1 → Perf.ret p perf2 = PyNum q2 →
  Ranking.rank p r1 = Some k1 → Ranking.rank p r2 = Some k2 →
  ((q2 < q1)%Q → k1 ≤ k2) ∧
  (k1 ≤ k2 →
     (∀ d1 d2, Ranking.decile p r1 = Some d1 → Ranking.decile p r2 = Some d2 →
               d1 ≤ d2) ∧
     (∀ c1 c2, Ranking.quartile p r1 = Some c1 → Ranking.quartile p r2 = Some c2 →
               c1 ≤ c2)).
Proof.
  intros H Hr1 Hr2 Hi Hj Hq1 Hq2.
  destruct (ranking_fields _ _ _ _ _ _ _ _ _ _ _ p H Hr1 Hi) as (_ & -> & -> & ->).
  destruct (ranking_fields _ _ _ _ _ _ _ _ _ _ _ p H Hr2 Hj) as (_ & -> & -> & ->).
  intros Hk1 Hk2. split.
  - intros Hlt.
    pose proof (raw_returns_lookup _ _ _ Hi p) as Hv1.
    pose proof (raw_returns_lookup _ _ _ Hj p) as Hv2.
    rewrite Hq1 in Hv1. rewrite Hq2 in Hv2.
    destruct (rank_of_before _ i j q1 q2 Hv1 Hv2) as (k1' & k2' & Hk1' & Hk2' & Hlt').
    { by left. }
    simplify_eq. lia.
  - intros Hle. rewrite Hk1, Hk2.
    assert (0 < pool_size (raw_returns p perfs))%nat as Hpos.
    { apply rank_of_bounds in Hk1. lia. }
    split.
    + intros d1 d2. case_match; [done|]. intros [= <-] [= <-]. by apply tier_mono.
    + intros c1 c2. case_match; [done|]. intros [= <-] [= <-]. by apply tier_mono.
Qed.

Lemma rank_decile_quartile_monotone_witness :
  ((9 < 15)%Q → 1 ≤ 3) ∧
  (1 ≤ 3 →
     (∀ d1 d2, Ranking.decile P6m (ranking_at result_B 2) = Some d1 →
               Ranking.decile P6m (ranking_at result_B 1) = Some d2 → d1 ≤ d2) ∧
     (∀ c1 c2, Ranking.quartile P6m (ranking_at result_B 2) = Some c1 →
               Ranking.quartile P6m (ranking_at result_B 1) = Some c2 → c1 ≤ c2)).
Proof.
  apply (rank_decile_quartile_monotone "S" "Sector" scenario_B "2026-02-16" prior_B
           20 5 result_B P6m 2 1 (ranking_at result_B 2) (ranking_at result_B 1)
           (fund "c" (PyNum 3) (PyNum 1) (PyNum 15))
           (fund "b" (PyNum 2) (PyNum 1) (PyNum 9)) 15 9 1 3).
  all: vm_compute; reflexivity.
Defined.

(** C9, counterexample: the order of the deciles does not give the order
    of the quartiles.  Among 20 funds, "f14" is ranked 6 and "f15" is
    ranked 5 for 6 months: both are in decile 3, but "f14" is in quartile
    2 and "f15" in quartile 1. *)
Lemma decile_order_not_quartile_order :
  ¬ (∀ i j d1 d2 c1 c2,
       Ranking.decile P6m (ranking_at result_C i) = Some d1 →
       Ranking.decile P6m (ranking_at result_C j) = Some d2 →
       Ranking.quartile P6m (ranking_at result_C i) = Some c1 →
       Ranking.quartile P6m (ranking_at result_C j) = Some c2 →
       d1 ≤ d2 → c1 ≤ c2).
Proof.
  intros H. specialize (H 14%nat 15%nat 3 3 2 1).
  assert (2 ≤ 1) as Hle; [|lia].
  apply H; vm_compute; (reflexivity || discriminate).
Qed.

(** ** The alert firing law *)

Lemma filter_concat_imap_nil {A B} (P : B → Prop) `{!∀ b, Decision (P b)}
    (g : nat → A → list B) (l : list A) :
  (∀ j y, l !! j = Some y → Forall (λ b, ¬ P b) (g j y)) →
  filter P (concat (imap g l)) = [].
Proof.
  revert g. induction l as [|x l IH]; intros g Hg; simpl; [done|].
  rewrite filter_app, (IH (g ∘ S)).
  - rewrite app_nil_r. apply filter_none, (Hg 0%nat x). done.
  - intros j y Hj. apply (Hg (S j) y Hj).
Qed.

Lemma filter_concat_imap_unique {A B} (P : B → Prop) `{!∀ b, Decision (P b)}
    (g : nat → A → list B) (l : list A) i x :
  l !! i = Some x →
  (∀ j y, l !! j = Some y → j ≠ i → Forall (λ b, ¬ P b) (g j y)) →
  filter P (concat (imap g l)) = filter P (g i x).
Proof.
  revert g i. induction l as [|z l IH]; intros g i Hi Hg; [done|].
  simpl. rewrite filter_app. destruct i as [|i]; simpl in Hi.
  - injection Hi as ->. rewrite (filter_concat_imap_nil P (g ∘ S)).
    + by rewrite app_nil_r.
    + intros j y Hj. apply (Hg (S j) y Hj). lia.
  - rewrite (filter_none P (g 0%nat z)) by (apply (Hg 0%nat z); [done|lia]).
    simpl. apply (IH (g ∘ S) i Hi).
    intros j y Hj Hne. apply (Hg (S j) y Hj). lia.
Qed.

Lemma step_alert_key sc wd uq row prev q a :
  a ∈ (period_step sc wd uq row prev q).2 →
  a = drop_alert sc wd uq row prev q ∧
  was_top uq prev q = true ∧ now_top uq row q = false.
Proof.
  rewrite period_step_alerts.
  destruct (was_top uq prev q); simpl; [|by rewrite elem_of_nil].
  destruct (now_top uq row q); simpl; [by rewrite elem_of_nil|].
  rewrite list_elem_of_singleton. by intros ->.
Qed.

Lemma filter_step_alerts sc wd uq row prev q fid p :
  Perf.fund_id (row_perf row) = fid →
  filter (λ a, Alert.fund_id a = fid ∧ Alert.period_ a = p)
    (period_step sc wd uq row prev q).2
  = if decide (q = p) then (period_step sc wd uq row prev q).2 else [].
Proof.
  intros Hfid. rewrite period_step_alerts.
  destruct (was_top uq prev q && negb (now_top uq row q)).
  - rewrite filter_singleton; [|exact []]. simpl.
    destruct (decide (q = p)) as [->|Hne].
    + by rewrite decide_True.
    + rewrite decide_False; [done|]. intros [_ ?]. done.
  - rewrite filter_nil. by destruct (decide _).
Qed.

Lemma filter_row_alerts sc wd uq n pmap row fid p :
  Perf.fund_id (row_perf row) = fid →
  filter (λ a, Alert.fund_id a = fid ∧ Alert.period_ a = p)
    (process_row sc wd uq n pmap row).1
  = (period_step sc wd uq row (pmap !! fid) p).2.
Proof.
  intros Hfid. unfold process_row. cbn [fst flat_map periods].
  rewrite Hfid, !filter_app, !(filter_step_alerts _ _ _ _ _ _ fid p Hfid), filter_nil.
  destruct p; simpl; by rewrite ?app_nil_r.
Qed.

Lemma row_alert_fund_id sc wd uq n pmap row a :
  a ∈ (process_row sc wd uq n pmap row).1 →
  ∃ q, a ∈ (period_step sc wd uq row (pmap !! Perf.fund_id (row_perf row)) q).2.
Proof.
  unfold process_row. cbn [fst flat_map periods]. rewrite !elem_of_app, elem_of_nil.
  intros [?|[?|[?|[]]]]; eauto.
Qed.

Lemma was_top_prior uq prior fid p :
  was_top uq (prior_map prior !! fid) p = prior_row_top uq prior fid p.
Proof.
  unfold was_top, prior_row_top. rewrite prior_map_lookup.
  destruct (prior_row prior fid) as [r|]; simpl; [by destruct uq|done].
Qed.

Section alert_law.
Context (sc sn : string) (perfs : list Perf.t) (wd : string) (prior : list Prior.t).
Context (qt mf : Z) (res : SectorResult).
Hypothesis Hres : rank_sector sc sn perfs wd prior qt mf = Ok res.
Hypothesis Hge : mf ≤ Z.of_nat (length perfs).

Let uq := use_quartiles res.
Let row (i : nat) (perf : Perf.t) : Row := row_at (make_df perfs) i perf.

Lemma alerts_concat :
  alerts res =
    concat (imap (λ i perf,
      (process_row sc wd uq (Z.of_nat (length perfs)) (prior_map prior) (row i perf)).1)
      perfs).
Proof. destruct (rank_sector_alerts _ _ _ _ _ _ _ _ Hres) as [[? _]|H]; [lia|done]. Qed.

Lemma alerts_origin a :
  a ∈ alerts res →
  ∃ i perf q, perfs !! i = Some perf ∧
    a ∈ (period_step sc wd uq (row i perf) (prior_map prior !! Perf.fund_id perf) q).2.
Proof.
  rewrite alerts_concat. intros Ha.
  apply elem_of_concat in Ha as (l & Ha & Hl).
  apply elem_of_lookup_imap in Hl as (i & perf & -> & Hi).
  apply row_alert_fund_id in Ha as [q Ha]. eauto.
Qed.

Lemma current_top_now i perf p :
  NoDup (Perf.fund_id <$> perfs) →
  perfs !! i = Some perf →
  current_top_tier res (Perf.fund_id perf) p = now_top uq (row i perf) p.
Proof.
  intros Hnd Hi. unfold current_top_tier.
  pose proof (rankings_lookup_perf _ _ _ _ _ _ _ _ _ _ Hres Hge Hi) as Hr.
  destruct (now_top uq (row i perf) p) eqn:Hnow.
  - apply bool_decide_eq_true. apply Exists_exists. eexists. split.
    + by eapply list_elem_of_lookup_2.
    + split; [done|]. by rewrite process_row_top_tier.
  - apply bool_decide_eq_false. rewrite Exists_exists.
    intros (r & Hin & Hfid & Htop).
    apply list_elem_of_lookup_1 in Hin as [j Hj].
    destruct (rankings_lookup _ _ _ _ _ _ _ _ _ _ Hres Hj) as (perf' & Hj' & ->).
    rewrite process_row_fund_id in Hfid. simpl in Hfid.
    assert (j = i) as ->.
    { eapply (NoDup_lookup _ _ _ _ Hnd); rewrite list_lookup_fmap.
      - by rewrite Hj'; simpl; rewrite Hfid.
      - by rewrite Hi. }
    assert (perf' = perf) as -> by congruence.
    rewrite process_row_top_tier in Htop. fold uq (row i perf) in Htop. congruence.
Qed.

Lemma alerts_for_fund i perf p :
  NoDup (Perf.fund_id <$> perfs) →
  perfs !! i = Some perf →
  alerts_for res (Perf.fund_id perf) p =
    if prior_row_top uq prior (Perf.fund_id perf) p
       && negb (current_top_tier res (Perf.fund_id perf) p)
    then [drop_alert sc wd uq (row i perf) (prior_map prior !! Perf.fund_id perf) p]
    else [].
Proof.
  intros Hnd Hi. unfold alerts_for. rewrite alerts_concat.
  rewrite (filter_concat_imap_unique _ _ _ i perf Hi).
  - rewrite filter_row_alerts by done.
    by rewrite period_step_alerts, was_top_prior, (current_top_now i perf p Hnd Hi).
  - intros j perf' Hj Hne. apply Forall_forall. intros a Ha [Hfid _].
    apply row_alert_fund_id in Ha as [q Ha].
    apply step_alert_key in Ha as (-> & _ & _). simpl in Hfid.
    apply Hne. eapply (NoDup_lookup _ _ _ _ Hnd); rewrite list_lookup_fmap.
    + by rewrite Hj; simpl; rewrite Hfid.
    + by rewrite Hi.
Qed.

End alert_law.

(** The alerts of the funds that have a record this week. *)
Lemma alerts_of_present_fund sc sn perfs wd prior qt mf res :
  rank_sector sc sn perfs wd prior qt mf = Ok res →
  mf ≤ Z.of_nat (length perfs) →
  NoDup (Perf.fund_id <$> perfs) →
  (∀ fid p, fid ∈ Perf.fund_id <$> perfs →
     ((∃ a, a ∈ alerts res ∧ Alert.fund_id a = fid ∧ Alert.period_ a = p) ↔
        prior_row_top (use_quartiles res) prior fid p = true
        ∧ current_top_tier res fid p = false) ∧
     length (alerts_for res fid p) =
       (if prior_row_top (use_quartiles res) prior fid p
           && negb (current_top_tier res fid p) then 1 else 0)%nat ∧
     (∀ a, a ∈ alerts_for res fid p →
        Alert.streak_broken a = prior_streak prior fid p)) ∧
  (∀ perf p, perf ∈ perfs → notna (Perf.ret p perf) = false →
     current_top_tier res (Perf.fund_id perf) p = false) ∧
  (∀ a, a ∈ alerts res →
     Alert.fund_id a ∈ Perf.fund_id <$> perfs
     ∧ Alert.fund_id a ∈ Prior.fund_id <$> prior).
Proof.
  intros Hres Hge Hnd. split; [|split].
  - intros fid p Hfid.
    apply list_elem_of_fmap in Hfid as (perf & -> & Hperf).
    apply list_elem_of_lookup_1 in Hperf as [i Hi].
    pose proof (alerts_for_fund _ _ _ _ _ _ _ _ Hres Hge i perf p Hnd Hi) as Hfor.
    assert (∀ a, a ∈ alerts_for res (Perf.fund_id perf) p ↔
                 a ∈ alerts res ∧ Alert.fund_id a = Perf.fund_id perf
                 ∧ Alert.period_ a = p) as Hin.
    { intros a. unfold alerts_for. rewrite list_elem_of_filter. tauto. }
    destruct (prior_row_top _ prior _ p); simpl in *.
    + destruct (current_top_tier res _ p); simpl in *.
      * split; [|split].
        -- split; [|by intros [_ ?]]. intros (a & Ha). apply Hin in Ha.
           rewrite Hfor in Ha. by apply elem_of_nil in Ha.
        -- by rewrite Hfor.
        -- intros a. rewrite Hfor. by rewrite elem_of_nil.
      * split; [|split].
        -- split; [done|]. intros _. eexists. apply Hin. rewrite Hfor.
           by apply list_elem_of_singleton.
        -- by rewrite Hfor.
        -- intros a. rewrite Hfor, list_elem_of_singleton. intros ->. simpl.
           apply prev_streak_prior.
    + split; [|split].
      * split; [|by intros [? _]]. intros (a & Ha). apply Hin in Ha.
        rewrite Hfor in Ha. by apply elem_of_nil in Ha.
      * by rewrite Hfor.
      * intros a. rewrite Hfor. by rewrite elem_of_nil.
  - intros perf p Hperf Hna.
    apply list_elem_of_lookup_1 in Hperf as [i Hi].
    rewrite (current_top_now _ _ _ _ _ _ _ _ Hres Hge i perf p Hnd Hi).
    unfold now_top. rewrite (row_at_decile _ _ _ Hi), (row_at_quartile _ _ _ Hi).
    pose proof (raw_returns_lookup _ _ _ Hi p) as Hv.
    rewrite (proj2 (rank_of_notna _ _ _ Hv) Hna).
    unfold in_top. by destruct (use_quartiles res), (_ <? _)%nat.
  - intros a Ha.
    destruct (alerts_origin _ _ _ _ _ _ _ _ Hres Hge a Ha) as (i & perf & q & Hi & Hq).
    apply step_alert_key in Hq as (-> & Hwas & _). simpl. split.
    + apply list_elem_of_fmap_2. by eapply list_elem_of_lookup_2.
    + rewrite was_top_prior in Hwas. unfold prior_row_top in Hwas.
      destruct (prior_row prior (Perf.fund_id perf)) as [r|] eqn:Hr; [|done].
      apply prior_row_Some in Hr as [Hin <-]. by apply list_elem_of_fmap_2.
Qed.

(** C1, as the code has it: for a population of at least [min_funds] with
    one record per fund, an alert for a fund and a period is in the output
    iff the fund has a record this week, its prior row holds tier 1 for
    the period under this week's mode (quartile when [use_quartiles],
    decile otherwise) and the fund is not top tier this week, which
    includes a null return this week; there is exactly one such alert, its
    [streak_broken] is the prior streak of the fund for the period, and no
    alert is for a fund absent from the prior snapshot or from this week's
    records.  Top tier this week is that of the specification for the
    fund's record. *)
Theorem alert_firing_law sc sn perfs wd prior qt mf res :
  rank_sector sc sn perfs wd prior qt mf = Ok res →
  mf ≤ Z.of_nat (length perfs) →
  NoDup (Perf.fund_id <$> perfs) →
  (∀ fid p,
     ((∃ a, a ∈ alerts res ∧ Alert.fund_id a = fid ∧ Alert.period_ a = p) ↔
        fid ∈ Perf.fund_id <$> perfs
        ∧ prior_row_top (use_quartiles res) prior fid p = true
        ∧ current_top_tier res fid p = false) ∧
     length (alerts_for res fid p) =
       (if bool_decide (fid ∈ Perf.fund_id <$> perfs)
           && prior_row_top (use_quartiles res) prior fid p
           && negb (current_top_tier res fid p) then 1 else 0)%nat ∧
     (∀ a, a ∈ alerts_for res fid p →
        Alert.streak_broken a = prior_streak prior fid p)) ∧
  (∀ i perf p, perfs !! i = Some perf →
     current_top_tier res (Perf.fund_id perf) p
       = spec_top_tier (use_quartiles res) (raw_returns p perfs) i
     ∧ (notna (Perf.ret p perf) = false →
        current_top_tier res (Perf.fund_id perf) p = false)) ∧
  (∀ a, a ∈ alerts res →
     Alert.fund_id a ∈ Perf.fund_id <$> perfs
     ∧ Alert.fund_id a ∈ Prior.fund_id <$> prior).
Proof.
  intros Hres Hge Hnd.
  destruct (alerts_of_present_fund _ _ _ _ _ _ _ _ Hres Hge Hnd) as (Hin & Hnull & Hfrom).
  split; [|split; [|done]].
  - intros fid p. destruct (decide (fid ∈ Perf.fund_id <$> perfs)) as [Hfid|Hout].
    + destruct (Hin fid p Hfid) as (Hiff & Hlen & Hs).
      split; [|split; [|done]].
      * rewrite Hiff. tauto.
      * by rewrite Hlen, bool_decide_true.
    + assert (alerts_for res fid p = []) as Hnil.
      { apply filter_none, Forall_forall. intros a Ha [Hf _]. apply Hout.
        rewrite <- Hf. by apply Hfrom. }
      split; [|split].
      * split; [|by intros [? _]]. intros (a & Ha & Hf & _). destruct Hout.
        rewrite <- Hf. by apply Hfrom.
      * by rewrite Hnil, bool_decide_false.
      * intros a. rewrite Hnil. by rewrite elem_of_nil.
  - intros i perf p Hi. split.
    + rewrite (current_top_now _ _ _ _ _ _ _ _ Hres Hge i perf p Hnd Hi).
      pose proof (rankings_lookup_perf _ _ _ _ _ _ _ _ _ _ Hres Hge Hi) as Hr.
      destruct (ranking_spec_fields _ _ _ _ _ _ _ _ _ _ _ p Hres Hr Hi)
        as (_ & _ & _ & _ & Htop).
      by rewrite process_row_top_tier in Htop.
    + apply Hnull. by eapply list_elem_of_lookup_2.
Qed.

Lemma alert_firing_law_witness :
  (∀ fid p,
     ((∃ a, a ∈ alerts result_B ∧ Alert.fund_id a = fid ∧ Alert.period_ a = p) ↔
        fid ∈ Perf.fund_id <$> scenario_B
        ∧ prior_row_top (use_quartiles result_B) prior_B fid p = true
        ∧ current_top_tier result_B fid p = false) ∧
     length (alerts_for result_B fid p) =
       (if bool_decide (fid ∈ Perf.fund_id <$> scenario_B)
           && prior_row_top (use_quartiles result_B) prior_B fid p
           && negb (current_top_tier result_B fid p) then 1 else 0)%nat ∧
     (∀ a, a ∈ alerts_for result_B fid p →
        Alert.streak_broken a = prior_streak prior_B fid p)) ∧
  (∀ i perf p, scenario_B !! i = Some perf →
     current_top_tier result_B (Perf.fund_id perf) p
       = spec_top_tier (use_quartiles result_B) (raw_returns p scenario_B) i
     ∧ (notna (Perf.ret p perf) = false →
        current_top_tier result_B (Perf.fund_id perf) p = false)) ∧
  (∀ a, a ∈ alerts result_B →
     Alert.fund_id a ∈ Perf.fund_id <$> scenario_B
     ∧ Alert.fund_id a ∈ Prior.fund_id <$> prior_B).
Proof.
  apply (alert_firing_law "S" "Sector" scenario_B "2026-02-16" prior_B 20 5).
  - vm_compute. reflexivity.
  - vm_compute. discriminate.
  - apply (bool_decide_unpack _). vm_compute. exact I.
Defined.

(** C1, counterexample: the law as the specification words it fails on
    three inputs.  (1) Fund "zz" is top tier in the prior snapshot (decile
    1, quartile 1, streak 3) and has no record this week, so it is not top
    tier this week, and no alert is raised.  (2) Two records carry the
    fund id "a", top tier in the prior snapshot and not top tier this
    week: two alerts are raised for ("a", 6m), not one.  (3) Fund "f16" is
    top tier in a week of 19 funds (quartile mode, quartile 1, streak 1);
    the week after, with 20 funds and decile mode, it is not top tier, its
    streak is reset to 0 and no alert is raised, because the prior row is
    read as a decile. *)
Lemma alert_firing_law_fails :
  (rank_sector "S" "Sector" scenario_B "2026-02-16" prior_gone 20 5 = Ok result_gone
   ∧ 5 ≤ Z.of_nat (length scenario_B)
   ∧ prior_row_top true prior_gone "zz" P6m = true
   ∧ prior_row_top false prior_gone "zz" P6m = true
   ∧ prior_streak prior_gone "zz" P6m = 3
   ∧ current_top_tier result_gone "zz" P6m = false
   ∧ alerts_for result_gone "zz" P6m = []) ∧
  (rank_sector "S" "Sector" scenario_dup "2026-02-16" prior_dup 20 5 = Ok result_dup
   ∧ 5 ≤ Z.of_nat (length scenario_dup)
   ∧ prior_row_top true prior_dup "a" P6m = true
   ∧ prior_row_top false prior_dup "a" P6m = true
   ∧ current_top_tier result_dup "a" P6m = false
   ∧ length (alerts_for result_dup "a" P6m) = 2%nat) ∧
  (rank_sector "S" "Sector" sector_19 "2026-02-16" [] 20 5 = Ok result_19
   ∧ rank_sector "S" "Sector" sector_20 "2026-02-23"
       (as_prior <$> rankings result_19) 20 5 = Ok result_flip
   ∧ use_quartiles result_19 = true ∧ use_quartiles result_flip = false
   ∧ current_top_tier result_19 "f16" P6m = true
   ∧ Ranking.streak P6m (ranking_at result_19 16) = 1
   ∧ Ranking.fund_id (ranking_at result_19 16) = "f16"
   ∧ current_top_tier result_flip "f16" P6m = false
   ∧ Ranking.fund_id (ranking_at result_flip 16) = "f16"
   ∧ Ranking.streak P6m (ranking_at result_flip 16) = 0
   ∧ alerts_for result_flip "f16" P6m = []).
Proof.
  split; [|split]; vm_compute; repeat split; try reflexivity; discriminate.
Qed.

(** The alerts of scenario B against [prior_B]: fund "a" leaves the top
    quartile for 1 month and 6 months, fund "d" has no 6-month return this
    week; fund "c" stays in the top 6-month quartile and fund "e", absent
    from the prior snapshot, raises nothing. *)
Example scenario_B_alerts :
  (λ a, (Alert.fund_id a, Alert.period_ a, Alert.curr_decile a, Alert.streak_broken a))
    <$> alerts result_B
  = [ ("a", P1m, Some 4, 3); ("a", P6m, Some 2, 2); ("d", P6m, None, 1) ].
Proof. vm_compute. reflexivity. Qed.

(** Scenario C: fund "f17" drops from decile 1 to decile 2 and raises one
    [decile_drop] alert with [streak_broken] 3; its new streak is 0.
    Scenario D: fund "f19", new in the sector, is in decile 1 with streak 1
    and raises nothing. *)
Example scenario_C_D :
  use_quartiles result_C = false ∧
  (λ a, (Alert.fund_id a, Alert.alert_type a, Alert.period_ a, Alert.prev_decile a,
         Alert.curr_decile a, Alert.streak_broken a)) <$> alerts result_C
  = [ ("f17", "decile_drop", P6m, 1, Some 2, 3) ] ∧
  (λ r, (Ranking.fund_id r, Ranking.decile_6m r, Ranking.streak_6m r))
    (ranking_at result_C 17) = ("f17", Some 2, 0) ∧
  (λ r, (Ranking.fund_id r, Ranking.decile_6m r, Ranking.streak_6m r))
    (ranking_at result_C 19) = ("f19", Some 1, 1).
Proof. vm_compute. repeat split; reflexivity. Qed.

(** ** The return value carried by an alert *)

Lemma alert_return_value sc sn perfs wd prior qt mf res a :
  rank_sector sc sn perfs wd prior qt mf = Ok res →
  mf ≤ Z.of_nat (length perfs) →
  a ∈ alerts res →
  ∃ i perf, perfs !! i = Some perf ∧ Alert.fund_id a = Perf.fund_id perf ∧
    Alert.return_value a = alert_value perfs perf (Alert.period_ a) ∧
    (notna (Perf.ret (Alert.period_ a) perf) = false → Alert.curr_decile a = None).
Proof.
  intros Hres Hge Ha.
  destruct (alerts_origin _ _ _ _ _ _ _ _ Hres Hge a Ha) as (i & perf & q & Hi & Hq).
  apply step_alert_key in Hq as (-> & _ & _). exists i, perf.
  split; [done|]. split; [done|].
  unfold drop_alert. cbn [Alert.return_value Alert.period_ Alert.curr_decile]. split.
  - rewrite (row_at_return _ _ _ Hi). unfold alert_value, infer_dtype.
    change (Perf.ret q <$> perfs) with (raw_returns q perfs).
    by destruct (Perf.ret q perf), (forallb _ _).
  - intros Hna. rewrite (row_at_decile _ _ _ Hi), (row_at_quartile _ _ _ Hi).
    pose proof (raw_returns_lookup _ _ _ Hi q) as Hv.
    rewrite (proj2 (rank_of_notna _ _ _ Hv) Hna).
    by destruct (use_quartiles res), (_ <? _)%nat.
Qed.

(** C10 at scenario B: fund "d" has no 6-month return this week and led
    the 6-month quartile in the prior snapshot; the alert carries a null
    [curr_decile], and its [return_value] is [nan], not 0.0. *)
Theorem null_return_alert_value :
  rank_sector "S" "Sector" scenario_B "2026-02-16" prior_B 20 5 = Ok result_B ∧
  Perf.ret P6m <$> scenario_B !! 3%nat = Some PyNone ∧
  (λ a, (Alert.curr_decile a, Alert.return_value a)) <$> alerts_for result_B "d" P6m
  = [(None, PyNaN)].
Proof. vm_compute. repeat split; reflexivity. Qed.

(** ** The top-3 list *)

(** When [rank_sector] produces a result for a ranked sector. *)
Lemma rank_sector_returns sc sn perfs wd prior qt mf :
  perfs ≠ [] → mf ≤ Z.of_nat (length perfs) →
  match infer_dtype (raw_returns P6m perfs) with
  | dt_float64 => ∃ res, rank_sector sc sn perfs wd prior qt mf = Ok res
  | dt_object => rank_sector sc sn perfs wd prior qt mf = Raise TypeError
  end.
Proof.
  intros Hne Hge. unfold rank_sector. destruct perfs as [|perf0 perfs']; [done|].
  set (perfs := perf0 :: perfs') in *.
  rewrite (proj2 (Z.ltb_ge _ _) Hge).
  unfold top3_of, nlargest. cbn [df_dtype make_df].
  change (Perf.ret P6m <$> perfs) with (raw_returns P6m perfs).
  destruct (infer_dtype (raw_returns P6m perfs)); eauto.
Qed.

Lemma omap_lookup_total {A B} (f : A → option B) (l : list A) k :
  Forall (λ x, is_Some (f x)) l → omap f l !! k = l !! k ≫= f.
Proof.
  intros Hl. revert k. induction Hl as [|x l [y Hy] _ IH]; intros k; [done|].
  simpl. rewrite Hy. destruct k; simpl; [done|apply IH].
Qed.

Lemma length_omap_total {A B} (f : A → option B) (l : list A) :
  Forall (λ x, is_Some (f x)) l → length (omap f l) = length l.
Proof.
  induction 1 as [|x l [y Hy] _ IH]; [done|]. simpl. rewrite Hy. simpl.
  f_equal. exact IH.
Qed.

Lemma float_or_None_none_to_nan v : float_or_None (none_to_nan v) = float_or_None v.
Proof. by destruct v. Qed.

Lemma row_at_float_or_None perfs i perf p :
  perfs !! i = Some perf →
  float_or_None (row_return (row_at (make_df perfs) i perf) p)
  = float_or_None (Perf.ret p perf).
Proof.
  intros Hi. rewrite (row_at_return _ _ _ Hi).
  destruct (infer_dtype _); [done|apply float_or_None_none_to_nan].
Qed.

(** The top-3 list of a result: the first three funds of the 6-month pool
    in descending order of return, exact ties in input order, with display
    ranks 1, 2, 3, never padded, the 1-month and 3-month returns null when
    absent. *)
Lemma top3_spec sc sn perfs wd prior qt mf res :
  rank_sector sc sn perfs wd prior qt mf = Ok res →
  mf ≤ Z.of_nat (length perfs) →
  length (top3 res) = (3 `min` pool_size (raw_returns P6m perfs))%nat ∧
  ∀ k t, top3 res !! k = Some t →
    ∃ i q perf,
      sort_desc (dropna (raw_returns P6m perfs)) !! k = Some (i, q) ∧
      perfs !! i = Some perf ∧ Perf.ret P6m perf = PyNum q ∧
      Top3.rank t = Z.of_nat k + 1 ∧
      Top3.fund_id t = Perf.fund_id perf ∧
      Top3.fund_name t = Perf.fund_name perf ∧
      Top3.return_6m t = q ∧
      Top3.return_3m t = float_or_None (Perf.ret P3m perf) ∧
      Top3.return_1m t = float_or_None (Perf.ret P1m perf).
Proof.
  intros Hres Hge.
  destruct (rank_sector_Ok _ _ _ _ _ _ _ _ Hres)
    as [[-> [->|Hlt]]|(Hne & _ & t3 & Ht3 & ->)]; [| lia |].
  { split; [done|]. intros k t Hk. cbn [top3] in Hk. by rewrite lookup_nil in Hk. }
  cbn [top3]. unfold top3_of, nlargest in Ht3. cbn [df_dtype df_return make_df] in Ht3.
  change (Perf.ret P6m <$> perfs) with (raw_returns P6m perfs) in Ht3.
  destruct (infer_dtype (raw_returns P6m perfs)); [done|].
  rewrite dropna_make_column in Ht3. injection Ht3 as <-.
  set (pool := sort_desc (dropna (raw_returns P6m perfs))).
  assert (∀ i q, (i, q) ∈ pool → ∃ perf, perfs !! i = Some perf ∧ Perf.ret P6m perf = PyNum q)
    as Hpool.
  { intros i q Hin. apply elem_of_sorted_pool in Hin.
    unfold raw_returns in Hin. rewrite list_lookup_fmap in Hin.
    apply fmap_Some in Hin as (perf & ? & ?). eauto. }
  assert (Forall (λ lq : nat * Q, is_Some ((lq.2,.) <$> iterrows (make_df perfs) !! lq.1))
            (take 3 pool)) as Htot.
  { apply Forall_forall. intros [i q] Hin. apply elem_of_take in Hin as (k & Hk & _).
    apply list_elem_of_lookup_2, Hpool in Hk as (perf & Hi & _).
    unfold iterrows. cbn [df_perfs make_df fst snd].
    rewrite list_lookup_imap, Hi. by eexists. }
  split.
  - rewrite length_imap. rewrite length_omap_total by done.
    rewrite length_take. unfold pool. by rewrite length_sort_desc, length_dropna.
  - intros k t Hk. rewrite list_lookup_imap in Hk.
    apply fmap_Some in Hk as ([q' r] & Hk & ->).
    rewrite (omap_lookup_total _ _ _ Htot) in Hk.
    apply bind_Some in Hk as ([i q] & Hk & Hrow).
    apply lookup_take_Some in Hk as [Hk _].
    destruct (Hpool i q) as (perf & Hi & Hret); [by eapply list_elem_of_lookup_2|].
    unfold iterrows in Hrow. cbn [df_perfs make_df fst snd] in Hrow.
    rewrite list_lookup_imap, Hi in Hrow. simpl in Hrow. injection Hrow as <- <-.
    exists i, q, perf. unfold top3_entry. cbn [Top3.rank Top3.fund_id Top3.fund_name
      Top3.return_6m Top3.return_3m Top3.return_1m fst snd row_perf row_at].
    rewrite !(row_at_float_or_None _ _ _ _ Hi). done.
Qed.

(** C8 at a sector without 6-month returns: no fund qualifies for the
    top-3 list, and [rank_sector] raises [TypeError] instead of returning
    an empty list, since [nlargest] refuses the all-[None] column. *)
Theorem top3_no_6m_return_raises :
  (5 ≤ Z.of_nat (length scenario_no_6m)) ∧
  pool_size (raw_returns P6m scenario_no_6m) = 0%nat ∧
  rank_sector "S" "Sector" scenario_no_6m "2026-02-16" [] 20 5 = Raise TypeError.
Proof. vm_compute. repeat split; [discriminate|reflexivity..]. Qed.

(** Scenario B: the top three 6-month returns, in order. *)
Example scenario_B_top3 :
  (λ t, (Top3.rank t, Top3.fund_id t, Top3.return_6m t)) <$> top3 result_B
  = [ (1, "c", 15%Q); (2, "a", 12.5%Q); (3, "b", 9%Q) ].
Proof. vm_compute. reflexivity. Qed.

(** * Further properties of the engine *)

(** ** The shape of the rankings *)

(** X1: for a ranked sector the rankings hold one row per input record, in
    input order, each carrying the fund id of its record, the sector code
    and week date of the call and the population as [total_in_sector]. *)
Theorem rankings_one_row_per_record sc sn perfs wd prior qt mf res :
  rank_sector sc sn perfs wd prior qt mf = Ok res →
  mf ≤ Z.of_nat (length perfs) →
  Ranking.fund_id <$> rankings res = Perf.fund_id <$> perfs ∧
  n_funds res = Z.of_nat (length perfs) ∧
  Forall (λ r, Ranking.sector_code r = sc ∧ Ranking.week_date r = wd
               ∧ Ranking.total_in_sector r = Z.of_nat (length perfs)) (rankings res).
Proof.
  intros H Hge. split; [|split].
  - apply list_eq. intros i. rewrite !list_lookup_fmap.
    destruct (perfs !! i) as [perf|] eqn:Hi; simpl.
    + by rewrite (rankings_lookup_perf _ _ _ _ _ _ _ _ _ _ H Hge Hi).
    + destruct (rankings res !! i) as [r|] eqn:Hr; [|done].
      destruct (rankings_lookup _ _ _ _ _ _ _ _ _ _ H Hr) as (perf & Hi' & _).
      congruence.
  - by destruct (rank_sector_Ok _ _ _ _ _ _ _ _ H)
      as [[-> _]|(_ & _ & t3 & _ & ->)].
  - apply Forall_forall. intros r Hr. apply list_elem_of_lookup_1 in Hr as [i Hr].
    by destruct (rankings_lookup _ _ _ _ _ _ _ _ _ _ H Hr) as (perf & _ & ->).
Qed.

Lemma rankings_one_row_per_record_witness :
  Ranking.fund_id <$> rankings result_B = Perf.fund_id <$> scenario_B ∧
  n_funds result_B = Z.of_nat (length scenario_B) ∧
  Forall (λ r, Ranking.sector_code r = "S" ∧ Ranking.week_date r = "2026-02-16"
               ∧ Ranking.total_in_sector r = Z.of_nat (length scenario_B))
    (rankings result_B).
Proof.
  apply (rankings_one_row_per_record "S" "Sector" scenario_B "2026-02-16" prior_B 20 5).
  - vm_compute. reflexivity.
  - vm_compute. discriminate.
Defined.

(** ** The order and the range of the ranks *)

Lemma before_total i j qi qj : i ≠ j → before (i, qi) (j, qj) ∨ before (j, qj) (i, qi).
Proof.
  intros Hne. unfold before. simpl.
  destruct (Q_dec qi qj) as [[Hlt|Hgt]|Heq].
  - right. by left.
  - left. by left.
  - destruct (Nat.lt_trichotomy i j) as [?|[?|?]]; [|done|].
    + left. right. split; [by symmetry|done].
    + right. right. done.
Qed.

(** X2: the ranks of [assign_ranks] order the valid entries exactly by
    return descending and, for equal returns, by input position ascending:
    entry [i] has a smaller rank than entry [j] iff it has the larger
    return, or the same return and the earlier position; two entries share
    a rank only if they are the same entry. *)
Theorem assign_ranks_order (s : list pyfloat) i j qi qj :
  s !! i = Some (PyNum qi) → s !! j = Some (PyNum qj) →
  ∃ ri rj, assign_ranks s !! i = Some (Some ri) ∧ assign_ranks s !! j = Some (Some rj) ∧
    (ri < rj ↔ (qj < qi)%Q ∨ ((qj == qi)%Q ∧ (i < j)%nat)) ∧
    (ri = rj ↔ i = j).
Proof.
  intros Hi Hj.
  destruct (proj2 (rank_of_is_Some s i) (ex_intro _ qi Hi)) as [ri Hri].
  destruct (proj2 (rank_of_is_Some s j) (ex_intro _ qj Hj)) as [rj Hrj].
  exists ri, rj.
  rewrite !assign_ranks_lookup, Hri, Hrj by by eapply lookup_lt_Some.
  split; [done|]. split; [done|].
  assert (ri = rj ↔ i = j) as Heq.
  { split; [intros ->; by eapply rank_of_inj|]. intros ->. congruence. }
  split; [|done]. change ((qj < qi)%Q ∨ (qj == qi)%Q ∧ (i < j)%nat) with (before (i, qi) (j, qj)).
  split.
  - intros Hlt. destruct (decide (i = j)) as [Hij|Hne].
    { apply Heq in Hij. lia. }
    destruct (before_total i j qi qj Hne) as [Hb|Hb]; [done|].
    destruct (rank_of_before s j i qj qi Hj Hi Hb) as (rj' & ri' & ? & ? & ?).
    simplify_eq. lia.
  - intros Hb.
    destruct (rank_of_before s i j qi qj Hi Hj Hb) as (ri' & rj' & ? & ? & ?).
    by simplify_eq.
Qed.

Lemma assign_ranks_order_witness :
  ∃ ri rj, assign_ranks returns_B6 !! 0%nat = Some (Some ri)
    ∧ assign_ranks returns_B6 !! 5%nat = Some (Some rj) ∧
    (ri < rj ↔ (12.5 < 12.5)%Q ∨ ((12.5 == 12.5)%Q ∧ (0 < 5)%nat)) ∧
    (ri = rj ↔ 0%nat = 5%nat).
Proof.
  apply (assign_ranks_order returns_B6 0 5 12.5%Q 12.5%Q); reflexivity.
Defined.

(** X3: the ranks of [assign_ranks] are exactly the numbers 1 to the size
    of the valid pool: every such number is the rank of one and only one
    entry, and the result has one entry per input entry. *)
Theorem assign_ranks_onto (s : list pyfloat) k :
  1 ≤ k ≤ Z.of_nat (pool_size s) →
  length (assign_ranks s) = length s ∧
  ∃ i, assign_ranks s !! i = Some (Some k) ∧
       ∀ j, assign_ranks s !! j = Some (Some k) → j = i.
Proof.
  intros Hk. split; [apply length_assign_ranks|].
  assert (Z.to_nat (k - 1) < length (sort_desc (dropna s)))%nat as Hlt.
  { rewrite length_sort_desc, length_dropna. lia. }
  apply lookup_lt_is_Some_2 in Hlt as [[i q] Hpos].
  assert (rank_of s i = Some k) as Hrank.
  { apply rank_of_Some. exists (Z.to_nat (k - 1)), q. split; [done|lia]. }
  assert (i < length s)%nat as Hi.
  { apply list_elem_of_lookup_2, elem_of_sorted_pool in Hpos. by eapply lookup_lt_Some. }
  exists i. split; [by rewrite assign_ranks_lookup, Hrank|].
  intros j Hj.
  assert (j < length s)%nat as Hjlt.
  { apply lookup_lt_Some in Hj. by rewrite length_assign_ranks in Hj. }
  rewrite assign_ranks_lookup in Hj by done. injection Hj as Hj.
  by eapply rank_of_inj.
Qed.

Lemma assign_ranks_onto_witness :
  length (assign_ranks returns_B6) = length returns_B6 ∧
  ∃ i, assign_ranks returns_B6 !! i = Some (Some 3) ∧
       ∀ j, assign_ranks returns_B6 !! j = Some (Some 3) → j = i.
Proof. apply (assign_ranks_onto returns_B6 3). vm_compute. split; discriminate. Defined.

(** ** Who is top tier *)

Lemma clip_one hi c : 1 < hi → (clip 1 hi c = 1 ↔ c ≤ 1).
Proof. unfold clip. lia. Qed.

Lemma tier_one n k r :
  (0 < n)%nat → 1 < k → 1 ≤ r →
  (clip 1 k (ceil_scaled r n k) = 1 ↔ k * r ≤ Z.of_nat n).
Proof.
  intros Hn Hk Hr. rewrite clip_one by lia.
  pose proof (ceil_scaled_spec r n k Hn) as [Hlo Hhi].
  assert (0 < Z.of_nat n) as HN by lia.
  revert Hlo Hhi. generalize (ceil_scaled r n k) (Z.of_nat n) HN.
  intros c N HN' Hlo Hhi. split; intros Hc.
  - assert (N * c ≤ N * 1) by (apply Z.mul_le_mono_nonneg_l; lia). lia.
  - destruct (Z_le_gt_dec c 1) as [?|Hgt]; [done|]. exfalso.
    assert (N * 1 ≤ N * (c - 1)) by (apply Z.mul_le_mono_nonneg_l; lia). lia.
Qed.

(** X4: a fund is in decile 1 exactly when ten times its rank does not
    exceed the size of the valid pool, and in quartile 1 exactly when four
    times its rank does not exceed it; a period with fewer than 10 valid
    returns has no fund in decile 1 and one with fewer than 4 has no fund
    in quartile 1. *)
Theorem top_tier_threshold sc sn perfs wd prior qt mf res p i r perf :
  rank_sector sc sn perfs wd prior qt mf = Ok res →
  rankings res !! i = Some r → perfs !! i = Some perf →
  (Ranking.decile p r = Some 1 ↔
     ∃ k, Ranking.rank p r = Some k
          ∧ 10 * k ≤ Z.of_nat (pool_size (raw_returns p perfs))) ∧
  (Ranking.quartile p r = Some 1 ↔
     ∃ k, Ranking.rank p r = Some k
          ∧ 4 * k ≤ Z.of_nat (pool_size (raw_returns p perfs))) ∧
  ((pool_size (raw_returns p perfs) < 10)%nat → Ranking.decile p r ≠ Some 1) ∧
  ((pool_size (raw_returns p perfs) < 4)%nat → Ranking.quartile p r ≠ Some 1).
Proof.
  intros H Hr Hi.
  destruct (ranking_fields _ _ _ _ _ _ _ _ _ _ _ p H Hr Hi) as (_ & -> & -> & ->).
  set (n := pool_size (raw_returns p perfs)).
  assert (∀ hi, 1 < hi →
    ((if (n <? 2)%nat then None
      else (λ k, clip 1 hi (ceil_scaled k n hi)) <$> rank_of (raw_returns p perfs) i)
     = Some 1 ↔
     ∃ k, rank_of (raw_returns p perfs) i = Some k ∧ hi * k ≤ Z.of_nat n)) as Hiff.
  { intros hi Hhi. destruct (rank_of (raw_returns p perfs) i) as [k|] eqn:Hk.
    - pose proof (rank_of_bounds _ _ _ Hk) as Hb. fold n in Hb.
      destruct (n <? 2)%nat eqn:Hn.
      + apply Nat.ltb_lt in Hn. split; [done|]. intros (k' & [= <-] & ?). nia.
      + simpl. split.
        * intros [= Hc]. exists k. split; [done|]. apply tier_one in Hc; lia.
        * intros (k' & [= <-] & ?). f_equal. apply tier_one; lia.
    - destruct (n <? 2)%nat; simpl; split; try done; by intros (? & ? & ?). }
  pose proof (Hiff 10 ltac:(lia)) as H10. pose proof (Hiff 4 ltac:(lia)) as H4.
  split; [done|]. split; [done|]. split.
  - intros Hn Hd. apply H10 in Hd as (k & Hk & ?).
    apply rank_of_bounds in Hk. lia.
  - intros Hn Hd. apply H4 in Hd as (k & Hk & ?).
    apply rank_of_bounds in Hk. lia.
Qed.

Lemma top_tier_threshold_witness :
  (Ranking.decile P6m (ranking_at result_B 2) = Some 1 ↔
     ∃ k, Ranking.rank P6m (ranking_at result_B 2) = Some k
          ∧ 10 * k ≤ Z.of_nat (pool_size (raw_returns P6m scenario_B))) ∧
  (Ranking.quartile P6m (ranking_at result_B 2) = Some 1 ↔
     ∃ k, Ranking.rank P6m (ranking_at result_B 2) = Some k
          ∧ 4 * k ≤ Z.of_nat (pool_size (raw_returns P6m scenario_B))) ∧
  ((pool_size (raw_returns P6m scenario_B) < 10)%nat →
     Ranking.decile P6m (ranking_at result_B 2) ≠ Some 1) ∧
  ((pool_size (raw_returns P6m scenario_B) < 4)%nat →
     Ranking.quartile P6m (ranking_at result_B 2) ≠ Some 1).
Proof.
  apply (top_tier_threshold "S" "Sector" scenario_B "2026-02-16" prior_B 20 5
           result_B P6m 2 (ranking_at result_B 2)
           (fund "c" (PyNum 3) (PyNum 1) (PyNum 15))).
  all: vm_compute; reflexivity.
Defined.

(** ** Streaks stay non-negative *)

(** X5: when no streak of the prior snapshot is negative, no streak of the
    result is negative, and a streak of the result is positive exactly
    when the fund is top tier this week for that period. *)
Theorem streaks_nonnegative sc sn perfs wd prior qt mf res r p :
  rank_sector sc sn perfs wd prior qt mf = Ok res →
  Forall (λ r0, ∀ p0, 0 ≤ default 0 (Prior.streak p0 r0)) prior →
  r ∈ rankings res →
  0 ≤ Ranking.streak p r ∧
  (0 < Ranking.streak p r ↔ top_tier (use_quartiles res) r p = true).
Proof.
  intros H Hprior Hr. rewrite (ranking_streak_rule _ _ _ _ _ _ _ _ _ p H Hr).
  assert (0 ≤ prior_streak prior (Ranking.fund_id r) p) as Hnn.
  { unfold prior_streak. destruct (prior_row _ _) as [r0|] eqn:Hr0; [|done].
    apply prior_row_Some in Hr0 as [Hin _].
    rewrite Forall_forall in Hprior. by apply Hprior. }
  destruct (top_tier _ r p); split; try lia; split; (done || lia).
Qed.

Lemma streaks_nonnegative_witness :
  0 ≤ Ranking.streak P6m (ranking_at result_B 2) ∧
  (0 < Ranking.streak P6m (ranking_at result_B 2) ↔
     top_tier (use_quartiles result_B) (ranking_at result_B 2) P6m = true).
Proof.
  apply (streaks_nonnegative "S" "Sector" scenario_B "2026-02-16" prior_B 20 5).
  - vm_compute. reflexivity.
  - repeat constructor; intros []; vm_compute; discriminate.
  - apply (list_elem_of_lookup_2 _ 2). vm_compute. reflexivity.
Defined.

(** ** When [rank_sector] raises *)

Lemma forallb_is_None perfs :
  forallb is_None (raw_returns P6m perfs) = true ↔
  Forall (λ perf, Perf.return_6m perf = PyNone) perfs.
Proof.
  induction perfs as [|perf perfs IH]; simpl; [by split|].
  rewrite andb_true_iff, IH, Forall_cons. unfold Perf.ret.
  assert (is_None (Perf.return_6m perf) = true ↔ Perf.return_6m perf = PyNone) as ->.
  { by destruct (Perf.return_6m perf). }
  done.
Qed.

(** X6: on records that carry every key, [rank_sector] raises [TypeError]
    exactly when the sector is ranked (not empty, population at least
    [min_funds]) and every record has [None] as its 6-month return. *)
Theorem rank_sector_raises_iff sc sn perfs wd prior qt mf :
  rank_sector sc sn perfs wd prior qt mf = Raise TypeError ↔
    perfs ≠ [] ∧ mf ≤ Z.of_nat (length perfs)
    ∧ Forall (λ perf, Perf.return_6m perf = PyNone) perfs.
Proof.
  rewrite <- forallb_is_None. split.
  - intros H. destruct perfs as [|perf0 perfs']; [done|]. split; [done|].
    destruct (Z_lt_le_dec (Z.of_nat (length (perf0 :: perfs'))) mf) as [Hlt|Hge].
    { unfold rank_sector in H. by rewrite (proj2 (Z.ltb_lt _ _) Hlt) in H. }
    split; [done|].
    pose proof (rank_sector_returns sc sn (perf0 :: perfs') wd prior qt mf
                  ltac:(done) Hge) as Hret.
    unfold infer_dtype in Hret. destruct (forallb _ _); [done|].
    destruct Hret as [res Hres]. congruence.
  - intros (Hne & Hge & Hall).
    pose proof (rank_sector_returns sc sn perfs wd prior qt mf Hne Hge) as Hret.
    unfold infer_dtype in Hret. by rewrite Hall in Hret.
Qed.

(** ** The alerts of one fund *)

Lemma filter_all {B} (P : B → Prop) `{!∀ b, Decision (P b)} (l : list B) :
  Forall P l → filter P l = l.
Proof.
  induction 1 as [|b l Hb _ IH]; [done|]. by rewrite filter_cons_True, IH.
Qed.

Lemma row_alert_periods sc wd uq n pmap row :
  Alert.period_ <$> (process_row sc wd uq n pmap row).1 `sublist_of` periods.
Proof.
  unfold process_row. cbn [fst flat_map periods].
  rewrite !period_step_alerts.
  repeat match goal with |- context [if ?b then _ else _] => destruct b end; simpl;
    repeat first [apply sublist_nil | apply sublist_skip | apply sublist_cons].
Qed.

Lemma fund_alert_periods sc sn perfs wd prior qt mf res fid :
  rank_sector sc sn perfs wd prior qt mf = Ok res →
  NoDup (Perf.fund_id <$> perfs) →
  Alert.period_ <$> filter (λ a, Alert.fund_id a = fid) (alerts res)
    `sublist_of` [P1m; P3m; P6m].
Proof.
  intros H Hnd.
  destruct (rank_sector_alerts _ _ _ _ _ _ _ _ H) as [[_ ->]| ->].
  { apply sublist_nil_l. }
  set (g := λ (i : nat) (perf : Perf.t),
         (process_row sc wd (use_quartiles res) (Z.of_nat (length perfs))
            (prior_map prior) (row_at (make_df perfs) i perf)).1).
  assert (∀ j perf a, a ∈ g j perf → Alert.fund_id a = Perf.fund_id perf) as Hg.
  { intros j perf a Ha. apply row_alert_fund_id in Ha as [q Ha].
    by apply step_alert_key in Ha as (-> & _ & _). }
  destruct (decide (fid ∈ Perf.fund_id <$> perfs)) as [Hin|Hout].
  - apply list_elem_of_fmap in Hin as (perf & -> & Hperf).
    apply list_elem_of_lookup_1 in Hperf as [i Hi].
    rewrite (filter_concat_imap_unique _ g perfs i perf Hi).
    + rewrite filter_all; [apply row_alert_periods|].
      apply Forall_forall. intros a Ha. by eapply Hg.
    + intros j perf' Hj Hne. apply Forall_forall. intros a Ha Hfid.
      apply Hg in Ha. apply Hne. eapply (NoDup_lookup _ _ _ _ Hnd);
        rewrite list_lookup_fmap.
      * rewrite Hj. reflexivity.
      * rewrite Hi. simpl. f_equal. congruence.
  - rewrite (filter_concat_imap_nil _ g perfs); [apply sublist_nil_l|].
    intros j perf Hj. apply Forall_forall. intros a Ha Hfid.
    apply Hg in Ha. apply Hout. apply list_elem_of_fmap. exists perf.
    split; [congruence|by eapply list_elem_of_lookup_2].
Qed.

(** X7: with one record per fund, the alerts of a fund are at most three,
    one per period at most, and they come in the order 1 month, 3 months,
    6 months. *)
Theorem alerts_of_fund_by_period sc sn perfs wd prior qt mf res fid :
  rank_sector sc sn perfs wd prior qt mf = Ok res →
  NoDup (Perf.fund_id <$> perfs) →
  Alert.period_ <$> filter (λ a, Alert.fund_id a = fid) (alerts res)
    `sublist_of` [P1m; P3m; P6m] ∧
  (length (filter (λ a, Alert.fund_id a = fid) (alerts res)) ≤ 3)%nat.
Proof.
  intros H Hnd.
  pose proof (fund_alert_periods _ _ _ _ _ _ _ _ fid H Hnd) as Hsub.
  split; [done|].
  apply sublist_length in Hsub. by rewrite length_fmap in Hsub.
Qed.

Lemma alerts_of_fund_by_period_witness :
  Alert.period_ <$> filter (λ a, Alert.fund_id a = "a") (alerts result_B)
    `sublist_of` [P1m; P3m; P6m] ∧
  (length (filter (λ a, Alert.fund_id a = "a") (alerts result_B)) ≤ 3)%nat.
Proof.
  apply (alerts_of_fund_by_period "S" "Sector" scenario_B "2026-02-16" prior_B 20 5).
  - vm_compute. reflexivity.
  - apply (bool_decide_unpack _). vm_compute. exact I.
Defined.

(** X8: every alert carries the sector code and week date of the call and
    1 as the tier left; its [curr_decile] is the quartile of the fund's
    ranking row in quartile mode and its decile otherwise, the new streak
    of that row for the period is 0, and [streak_broken] is the prior
    streak of the fund for the period. *)
Theorem alert_matches_ranking sc sn perfs wd prior qt mf res a :
  rank_sector sc sn perfs wd prior qt mf = Ok res →
  a ∈ alerts res →
  Alert.sector_code a = sc ∧ Alert.week_date a = wd ∧ Alert.prev_decile a = 1 ∧
  Alert.streak_broken a = prior_streak prior (Alert.fund_id a) (Alert.period_ a) ∧
  ∃ r, r ∈ rankings res ∧ Ranking.fund_id r = Alert.fund_id a ∧
    Alert.curr_decile a =
      (if use_quartiles res then Ranking.quartile (Alert.period_ a) r
       else Ranking.decile (Alert.period_ a) r) ∧
    Ranking.streak (Alert.period_ a) r = 0.
Proof.
  intros H Ha.
  assert (mf ≤ Z.of_nat (length perfs)) as Hge.
  { destruct (rank_sector_Ok _ _ _ _ _ _ _ _ H) as [[-> _]|(_ & ? & _)]; [|done].
    by apply elem_of_nil in Ha. }
  destruct (alerts_origin _ _ _ _ _ _ _ _ H Hge a Ha) as (i & perf & q & Hi & Hq).
  apply step_alert_key in Hq as (-> & _ & Hnow).
  unfold drop_alert. cbn [Alert.sector_code Alert.week_date Alert.prev_decile
    Alert.streak_broken Alert.fund_id Alert.period_ Alert.curr_decile row_perf row_at].
  split; [done|]. split; [done|]. split; [done|]. split; [apply prev_streak_prior|].
  eexists. split.
  { eapply list_elem_of_lookup_2. by apply (rankings_lookup_perf _ _ _ _ _ _ _ _ _ _ H Hge Hi). }
  split; [done|]. rewrite process_row_quartile, process_row_decile, process_row_streak.
  split; [done|]. by rewrite Hnow.
Qed.

Lemma alert_matches_ranking_witness :
  Alert.sector_code (alert_at result_B 2) = "S"
  ∧ Alert.week_date (alert_at result_B 2) = "2026-02-16"
  ∧ Alert.prev_decile (alert_at result_B 2) = 1 ∧
  Alert.streak_broken (alert_at result_B 2)
  = prior_streak prior_B (Alert.fund_id (alert_at result_B 2))
      (Alert.period_ (alert_at result_B 2)) ∧
  ∃ r, r ∈ rankings result_B ∧ Ranking.fund_id r = Alert.fund_id (alert_at result_B 2) ∧
    Alert.curr_decile (alert_at result_B 2) =
      (if use_quartiles result_B then Ranking.quartile (Alert.period_ (alert_at result_B 2)) r
       else Ranking.decile (Alert.period_ (alert_at result_B 2)) r) ∧
    Ranking.streak (Alert.period_ (alert_at result_B 2)) r = 0.
Proof.
  apply (alert_matches_ranking "S" "Sector" scenario_B "2026-02-16" prior_B 20 5).
  - vm_compute. reflexivity.
  - apply (list_elem_of_lookup_2 _ 2). vm_compute. reflexivity.
Defined.

(** ** The three highest 6-month returns *)

(** X9: on a ranked sector for which [rank_sector] returns, the top-3 list
    has as many entries as there are funds with a 6-month return, up to
    three; its entries are in descending order of return with display
    ranks 1, 2, 3; every fund with a 6-month return is either an entry of
    the list, with its own 1-month and 3-month returns or null, or has a
    return no higher than every entry. *)
Theorem top3_highest sc sn perfs wd prior qt mf res :
  rank_sector sc sn perfs wd prior qt mf = Ok res →
  mf ≤ Z.of_nat (length perfs) →
  length (top3 res) = (3 `min` pool_size (raw_returns P6m perfs))%nat ∧
  (∀ k t, top3 res !! k = Some t → Top3.rank t = Z.of_nat k + 1) ∧
  (∀ k1 k2 t1 t2, (k1 < k2)%nat →
     top3 res !! k1 = Some t1 → top3 res !! k2 = Some t2 →
     (Top3.return_6m t2 <= Top3.return_6m t1)%Q) ∧
  (∀ j perf q, perfs !! j = Some perf → Perf.ret P6m perf = PyNum q →
     (∃ k t, top3 res !! k = Some t ∧ Top3.fund_id t = Perf.fund_id perf
             ∧ Top3.fund_name t = Perf.fund_name perf ∧ Top3.return_6m t = q
             ∧ Top3.return_3m t = float_or_None (Perf.ret P3m perf)
             ∧ Top3.return_1m t = float_or_None (Perf.ret P1m perf))
     ∨ (∀ t, t ∈ top3 res → (q <= Top3.return_6m t)%Q)).
Proof.
  intros H Hge. destruct (top3_spec _ _ _ _ _ _ _ _ H Hge) as [Hlen Hspec].
  set (pool := sort_desc (dropna (raw_returns P6m perfs))) in *.
  pose proof (sorted_pool_sorted (raw_returns P6m perfs)) as Hsorted. fold pool in Hsorted.
  assert (∀ x y, before x y → (y.2 <= x.2)%Q) as Hle.
  { intros x y [Hlt|[Heq _]]; lra. }
  split; [done|]. split; [|split].
  - intros k t Hk. by destruct (Hspec k t Hk) as (i & q & perf & _ & _ & _ & ? & _).
  - intros k1 k2 t1 t2 Hlt Hk1 Hk2.
    destruct (Hspec k1 t1 Hk1) as (i1 & q1 & perf1 & Hp1 & _ & _ & _ & _ & _ & -> & _).
    destruct (Hspec k2 t2 Hk2) as (i2 & q2 & perf2 & Hp2 & _ & _ & _ & _ & _ & -> & _).
    apply (Hle (i1, q1) (i2, q2)). by eapply (StronglySorted_lookup_lt _ _ k1 k2).
  - intros j perf q Hj Hret.
    assert ((j, q) ∈ pool) as Hin.
    { apply elem_of_sorted_pool. by rewrite (raw_returns_lookup _ _ _ Hj), Hret. }
    apply list_elem_of_lookup_1 in Hin as [m Hm].
    destruct (decide (m < 3)%nat) as [Hm3|Hm3].
    + left.
      assert (m < length (top3 res))%nat as Hlt.
      { rewrite Hlen. apply lookup_lt_Some in Hm.
        unfold pool in Hm. rewrite length_sort_desc, length_dropna in Hm. lia. }
      apply lookup_lt_is_Some_2 in Hlt as [t Ht]. exists m, t. split; [done|].
      destruct (Hspec m t Ht) as (i & q' & perf' & Hp & Hi & _ & _ & ? & ? & ? & ? & ?).
      rewrite Hm in Hp. injection Hp as <- <-.
      assert (perf' = perf) as -> by congruence. done.
    + right. intros t Ht. apply list_elem_of_lookup_1 in Ht as [k Hk].
      assert (k < 3)%nat as Hk3.
      { apply lookup_lt_Some in Hk. rewrite Hlen in Hk. lia. }
      destruct (Hspec k t Hk) as (i & q' & perf' & Hp & _ & _ & _ & _ & _ & -> & _).
      apply (Hle (i, q') (j, q)).
      eapply (StronglySorted_lookup_lt _ _ k m); [done..|lia].
Qed.

Lemma top3_highest_witness :
  length (top3 result_B) = (3 `min` pool_size (raw_returns P6m scenario_B))%nat ∧
  (∀ k t, top3 result_B !! k = Some t → Top3.rank t = Z.of_nat k + 1) ∧
  (∀ k1 k2 t1 t2, (k1 < k2)%nat →
     top3 result_B !! k1 = Some t1 → top3 result_B !! k2 = Some t2 →
     (Top3.return_6m t2 <= Top3.return_6m t1)%Q) ∧
  (∀ j perf q, scenario_B !! j = Some perf → Perf.ret P6m perf = PyNum q →
     (∃ k t, top3 result_B !! k = Some t ∧ Top3.fund_id t = Perf.fund_id perf
             ∧ Top3.fund_name t = Perf.fund_name perf ∧ Top3.return_6m t = q
             ∧ Top3.return_3m t = float_or_None (Perf.ret P3m perf)
             ∧ Top3.return_1m t = float_or_None (Perf.ret P1m perf))
     ∨ (∀ t, t ∈ top3 result_B → (q <= Top3.return_6m t)%Q)).
Proof.
  apply (top3_highest "S" "Sector" scenario_B "2026-02-16" prior_B 20 5).
  - vm_compute. reflexivity.
  - vm_compute. discriminate.
Defined.

(** ** From one week to the next *)

Lemma rankings_fund_ids sc sn perfs wd prior qt mf res :
  rank_sector sc sn perfs wd prior qt mf = Ok res →
  rankings res = [] ∨ Ranking.fund_id <$> rankings res = Perf.fund_id <$> perfs.
Proof.
  intros H. destruct (rank_sector_rankings _ _ _ _ _ _ _ _ H) as [[_ ->]| ->]; [by left|].
  right. rewrite fmap_imap. apply list_eq. intros i.
  rewrite list_lookup_imap, list_lookup_fmap. by destruct (perfs !! i).
Qed.

Lemma prior_row_as_prior (rs : list Ranking.t) r :
  NoDup (Ranking.fund_id <$> rs) → r ∈ rs →
  prior_row (as_prior <$> rs) (Ranking.fund_id r) = Some (as_prior r).
Proof.
  unfold prior_row. induction rs as [|r0 rs IH]; intros Hnd Hr.
  { by apply elem_of_nil in Hr. }
  rewrite fmap_cons in Hnd. apply NoDup_cons in Hnd as [Hnotin Hnd].
  rewrite fmap_cons, filter_cons. cbn [Prior.fund_id as_prior].
  apply elem_of_cons in Hr as [->|Hr].
  - rewrite decide_True by done.
    rewrite filter_none; [done|]. apply Forall_forall.
    intros x Hx Hfid. apply list_elem_of_fmap in Hx as (r' & -> & Hr').
    cbn [Prior.fund_id as_prior] in Hfid.
    apply Hnotin. rewrite <- Hfid. by apply list_elem_of_fmap_2.
  - rewrite decide_False.
    + by apply IH.
    + intros Hfid. apply Hnotin. rewrite Hfid. by apply list_elem_of_fmap_2.
Qed.

Lemma as_prior_streak r p : Prior.streak p (as_prior r) = Some (Ranking.streak p r).
Proof. by destruct p. Qed.

Lemma as_prior_row_top (uq : bool) (r : Ranking.t) (p : period) :
  bool_decide ((if uq then Prior.quartile p (as_prior r)
                else Prior.decile p (as_prior r)) = Some 1)
  = top_tier uq r p.
Proof. unfold top_tier. by destruct uq, p. Qed.

Section next_week.
Context (sc sn : string) (perfs1 perfs2 : list Perf.t) (wd1 wd2 : string).
Context (prior0 : list Prior.t) (qt mf : Z) (res1 res2 : SectorResult).
Context (r1 r2 : Ranking.t) (p : period).
Hypothesis Hres1 : rank_sector sc sn perfs1 wd1 prior0 qt mf = Ok res1.
Hypothesis Hres2 :
  rank_sector sc sn perfs2 wd2 (as_prior <$> rankings res1) qt mf = Ok res2.
Hypothesis Hnd1 : NoDup (Perf.fund_id <$> perfs1).
Hypothesis Hnd2 : NoDup (Perf.fund_id <$> perfs2).
Hypothesis Hr1 : r1 ∈ rankings res1.
Hypothesis Hr2 : r2 ∈ rankings res2.
Hypothesis Hfid : Ranking.fund_id r1 = Ranking.fund_id r2.

Lemma next_week_prior_row :
  prior_row (as_prior <$> rankings res1) (Ranking.fund_id r2) = Some (as_prior r1).
Proof.
  rewrite <- Hfid. apply prior_row_as_prior; [|done].
  destruct (rankings_fund_ids _ _ _ _ _ _ _ _ Hres1) as [Hnil| ->]; [|done].
  rewrite Hnil in Hr1. by apply elem_of_nil in Hr1.
Qed.

Lemma next_week_streak :
  Ranking.streak p r2 =
    if top_tier (use_quartiles res2) r2 p then Ranking.streak p r1 + 1 else 0.
Proof.
  rewrite (ranking_streak_rule _ _ _ _ _ _ _ _ _ p Hres2 Hr2).
  unfold prior_streak. by rewrite next_week_prior_row, as_prior_streak.
Qed.

Lemma next_week_alerts :
  alerts_for res2 (Ranking.fund_id r2) p = [] ∧
    top_tier (use_quartiles res2) r1 p && negb (top_tier (use_quartiles res2) r2 p) = false
  ∨ ∃ a, alerts_for res2 (Ranking.fund_id r2) p = [a] ∧
      Alert.streak_broken a = Ranking.streak p r1 ∧
      top_tier (use_quartiles res2) r1 p = true ∧
      top_tier (use_quartiles res2) r2 p = false.
Proof.
  assert (mf ≤ Z.of_nat (length perfs2)) as Hge.
  { destruct (rank_sector_Ok _ _ _ _ _ _ _ _ Hres2) as [[Heq _]|(_ & ? & _)]; [|done].
    rewrite Heq in Hr2. by apply elem_of_nil in Hr2. }
  pose proof Hr2 as Hr2'. apply list_elem_of_lookup_1 in Hr2' as [i Hi2].
  destruct (rankings_lookup _ _ _ _ _ _ _ _ _ _ Hres2 Hi2) as (perf & Hi & Heq).
  assert (Ranking.fund_id r2 = Perf.fund_id perf) as Hid by by rewrite Heq.
  rewrite Hid.
  rewrite (alerts_for_fund _ _ _ _ _ _ _ _ Hres2 Hge i perf p Hnd2 Hi).
  rewrite (current_top_now _ _ _ _ _ _ _ _ Hres2 Hge i perf p Hnd2 Hi).
  rewrite <- (process_row_top_tier sc wd2 (use_quartiles res2)
                (Z.of_nat (length perfs2)) (prior_map (as_prior <$> rankings res1))).
  rewrite <- Heq. unfold prior_row_top. rewrite <- Hid, next_week_prior_row.
  rewrite as_prior_row_top.
  destruct (top_tier (use_quartiles res2) r1 p) eqn:Ht1;
    destruct (top_tier (use_quartiles res2) r2 p) eqn:Ht2; simpl; try by left.
  right. eexists. split; [done|]. split; [|done].
  unfold drop_alert. cbn [Alert.streak_broken].
  rewrite prev_streak_prior. unfold prior_streak.
  by rewrite next_week_prior_row, as_prior_streak.
Qed.

End next_week.

(** X10: when the ranking rows of one week are the prior snapshot of the
    next (one record per fund in both weeks), a fund ranked in both weeks
    has next week the streak of this week plus 1 if it is top tier next
    week and 0 otherwise; it raises an alert for a period exactly when its
    row of this week is top tier under next week's mode and its row of
    next week is not, and the alert carries this week's streak. *)
Theorem next_week_recurrence sc sn perfs1 perfs2 wd1 wd2 prior0 qt mf res1 res2 r1 r2 p :
  rank_sector sc sn perfs1 wd1 prior0 qt mf = Ok res1 →
  rank_sector sc sn perfs2 wd2 (as_prior <$> rankings res1) qt mf = Ok res2 →
  NoDup (Perf.fund_id <$> perfs1) → NoDup (Perf.fund_id <$> perfs2) →
  r1 ∈ rankings res1 → r2 ∈ rankings res2 →
  Ranking.fund_id r1 = Ranking.fund_id r2 →
  Ranking.streak p r2 =
    (if top_tier (use_quartiles res2) r2 p then Ranking.streak p r1 + 1 else 0) ∧
  length (alerts_for res2 (Ranking.fund_id r2) p) =
    (if top_tier (use_quartiles res2) r1 p && negb (top_tier (use_quartiles res2) r2 p)
     then 1 else 0)%nat ∧
  (∀ a, a ∈ alerts_for res2 (Ranking.fund_id r2) p →
     Alert.streak_broken a = Ranking.streak p r1).
Proof.
  intros H1 H2 Hnd1 Hnd2 Hr1 Hr2 Hfid.
  split.
  { exact (next_week_streak sc sn perfs1 perfs2 wd1 wd2 prior0 qt mf res1 res2 r1 r2 p
             H1 H2 Hnd1 Hr1 Hr2 Hfid). }
  destruct (next_week_alerts sc sn perfs1 perfs2 wd1 wd2 prior0 qt mf res1 res2 r1 r2 p
              H1 H2 Hnd1 Hnd2 Hr1 Hr2 Hfid) as [[-> ->]|(a & -> & Hsb & -> & ->)].
  - split; [done|]. intros a Ha. by apply elem_of_nil in Ha.
  - split; [done|]. intros a' Ha'. apply list_elem_of_singleton in Ha'. by subst.
Qed.

Lemma next_week_recurrence_witness :
  Ranking.streak P6m (ranking_at result_B_next 2) =
    (if top_tier (use_quartiles result_B_next) (ranking_at result_B_next 2) P6m
     then Ranking.streak P6m (ranking_at result_B 2) + 1 else 0) ∧
  length (alerts_for result_B_next (Ranking.fund_id (ranking_at result_B_next 2)) P6m) =
    (if top_tier (use_quartiles result_B_next) (ranking_at result_B 2) P6m
        && negb (top_tier (use_quartiles result_B_next) (ranking_at result_B_next 2) P6m)
     then 1 else 0)%nat ∧
  (∀ a, a ∈ alerts_for result_B_next (Ranking.fund_id (ranking_at result_B_next 2)) P6m →
     Alert.streak_broken a = Ranking.streak P6m (ranking_at result_B 2)).
Proof.
  apply (next_week_recurrence "S" "Sector" scenario_B scenario_B_next
           "2026-02-16" "2026-02-23" prior_B 20 5 result_B result_B_next).
  - vm_compute. reflexivity.
  - vm_compute. reflexivity.
  - apply (bool_decide_unpack _). vm_compute. exact I.
  - apply (bool_decide_unpack _). vm_compute. exact I.
  - apply (list_elem_of_lookup_2 _ 2). vm_compute. reflexivity.
  - apply (list_elem_of_lookup_2 _ 2). vm_compute. reflexivity.
  - vm_compute. reflexivity.
Defined.

(** X11: under the same conditions, when both weeks run in the same mode,
    a fund ranked in both weeks that has a positive streak this week and
    is not top tier next week raises exactly one alert for the period; the
    alert carries the streak that ended and the fund's new streak is 0. *)
Theorem streak_end_raises_alert sc sn perfs1 perfs2 wd1 wd2 prior0 qt mf res1 res2 r1 r2 p :
  rank_sector sc sn perfs1 wd1 prior0 qt mf = Ok res1 →
  rank_sector sc sn perfs2 wd2 (as_prior <$> rankings res1) qt mf = Ok res2 →
  NoDup (Perf.fund_id <$> perfs1) → NoDup (Perf.fund_id <$> perfs2) →
  r1 ∈ rankings res1 → r2 ∈ rankings res2 →
  Ranking.fund_id r1 = Ranking.fund_id r2 →
  use_quartiles res1 = use_quartiles res2 →
  0 < Ranking.streak p r1 →
  top_tier (use_quartiles res2) r2 p = false →
  Ranking.streak p r2 = 0 ∧
  ∃ a, alerts_for res2 (Ranking.fund_id r2) p = [a] ∧
       Alert.streak_broken a = Ranking.streak p r1.
Proof.
  intros H1 H2 Hnd1 Hnd2 Hr1 Hr2 Hfid Hmode Hpos Hnot.
  split.
  { rewrite (next_week_streak sc sn perfs1 perfs2 wd1 wd2 prior0 qt mf res1 res2 r1 r2 p
               H1 H2 Hnd1 Hr1 Hr2 Hfid). by rewrite Hnot. }
  assert (top_tier (use_quartiles res2) r1 p = true) as Htop1.
  { rewrite <- Hmode. rewrite (ranking_streak_rule _ _ _ _ _ _ _ _ _ p H1 Hr1) in Hpos.
    destruct (top_tier (use_quartiles res1) r1 p); [done|lia]. }
  destruct (next_week_alerts sc sn perfs1 perfs2 wd1 wd2 prior0 qt mf res1 res2 r1 r2 p
              H1 H2 Hnd1 Hnd2 Hr1 Hr2 Hfid) as [[_ Hf]|(a & Ha & Hsb & _ & _)].
  - rewrite Htop1, Hnot in Hf. done.
  - eauto.
Qed.

Lemma streak_end_raises_alert_witness :
  Ranking.streak P6m (ranking_at result_B_next 2) = 0 ∧
  ∃ a, alerts_for result_B_next (Ranking.fund_id (ranking_at result_B_next 2)) P6m = [a] ∧
       Alert.streak_broken a = Ranking.streak P6m (ranking_at result_B 2).
Proof.
  apply (streak_end_raises_alert "S" "Sector" scenario_B scenario_B_next
           "2026-02-16" "2026-02-23" prior_B 20 5 result_B result_B_next).
  - vm_compute. reflexivity.
  - vm_compute. reflexivity.
  - apply (bool_decide_unpack _). vm_compute. exact I.
  - apply (bool_decide_unpack _). vm_compute. exact I.
  - apply (list_elem_of_lookup_2 _ 2). vm_compute. reflexivity.
  - apply (list_elem_of_lookup_2 _ 2). vm_compute. reflexivity.
  - vm_compute. reflexivity.
  - vm_compute. reflexivity.
  - vm_compute. reflexivity.
  - vm_compute. reflexivity.
Defined.

(** * The digest of the dispatcher *)

(** ** Funds in order of first occurrence *)

Lemma first_seen_snoc (l : list string) x :
  first_seen (l ++ [x]) = if decide (x ∈ l) then first_seen l else first_seen l ++ [x].
Proof.
  unfold first_seen. rewrite reverse_snoc. simpl.
  destruct (decide_rel elem_of x (reverse l)) as [Hin|Hout];
    rewrite elem_of_reverse in *.
  - by rewrite decide_True.
  - by rewrite decide_False, reverse_cons.
Qed.

Lemma elem_of_first_seen (l : list string) x : x ∈ first_seen l ↔ x ∈ l.
Proof. unfold first_seen. by rewrite elem_of_reverse, elem_of_remove_dups, elem_of_reverse. Qed.

Lemma NoDup_first_seen (l : list string) : NoDup (first_seen l).
Proof.
  unfold first_seen. rewrite reverse_Permutation. apply NoDup_remove_dups.
Qed.

Lemma max_streak_snoc l a :
  max_streak (l ++ [a]) =
    if bool_decide (max_streak l < Alert.streak_broken a)
    then Alert.streak_broken a else max_streak l.
Proof.
  unfold max_streak. rewrite foldl_snoc. case_bool_decide; lia.
Qed.

Lemma alerts_of_fund_snoc fid l a :
  alerts_of_fund fid (l ++ [a]) =
    if decide (Alert.fund_id a = fid) then alerts_of_fund fid l ++ [a]
    else alerts_of_fund fid l.
Proof.
  unfold alerts_of_fund. rewrite filter_app, filter_cons, filter_nil.
  destruct (decide _); by rewrite ?app_nil_r.
Qed.

Lemma group_of_snoc_other names sectors l a fid :
  Alert.fund_id a ≠ fid → group_of names sectors (l ++ [a]) fid = group_of names sectors l fid.
Proof. intros Hne. unfold group_of. by rewrite alerts_of_fund_snoc, decide_False. Qed.

(** The groups before sorting, as a function of the input. *)
Lemma grouped_spec names sectors raw :
  foldl (add_alert names sectors) [] raw
  = group_of names sectors raw <$> first_seen (Alert.fund_id <$> raw).
Proof.
  induction raw as [|a raw IH] using rev_ind; [done|].
  rewrite foldl_snoc, IH, fmap_app.
  change (Alert.fund_id <$> [a]) with [Alert.fund_id a].
  rewrite first_seen_snoc.
  set (ids := Alert.fund_id <$> raw). set (fid := Alert.fund_id a).
  unfold add_alert. fold fid.
  destruct (decide (fid ∈ ids)) as [Hin|Hout].
  - apply elem_of_first_seen, list_elem_of_lookup_1 in Hin as [i Hi].
    assert (list_find (λ g, AlertGroup.fund_id g = fid)
              (group_of names sectors raw <$> first_seen ids)
            = Some (i, group_of names sectors raw fid)) as ->.
    { apply list_find_Some. split; [by rewrite list_lookup_fmap, Hi|]. split; [done|].
      intros j g Hj Hlt Hg. rewrite list_lookup_fmap in Hj.
      apply fmap_Some in Hj as (fid' & Hj & ->). simpl in Hg. subst fid'.
      pose proof (NoDup_lookup _ _ _ _ (NoDup_first_seen ids) Hj Hi). lia. }
    apply list_eq. intros j. rewrite list_lookup_fmap.
    destruct (decide (i = j)) as [<-|Hne].
    + rewrite list_lookup_insert_eq by (rewrite length_fmap; by eapply lookup_lt_Some).
      rewrite Hi. simpl. f_equal. unfold group_of.
      rewrite alerts_of_fund_snoc, decide_True by done.
      rewrite last_snoc, max_streak_snoc, fmap_app. done.
    + rewrite list_lookup_insert_ne, list_lookup_fmap by done.
      destruct (first_seen ids !! j) as [fid'|] eqn:Hj; [|done]. simpl. f_equal.
      symmetry. apply group_of_snoc_other. intros Heq. apply Hne.
      fold fid in Heq. subst fid'. by eapply (NoDup_lookup _ _ _ _ (NoDup_first_seen ids)).
  - assert (list_find (λ g, AlertGroup.fund_id g = fid)
              (group_of names sectors raw <$> first_seen ids) = None) as ->.
    { apply list_find_None, Forall_forall. intros g Hg Hfid.
      apply list_elem_of_fmap in Hg as (fid' & -> & Hfid'). simpl in Hfid. subst fid'.
      by apply Hout, elem_of_first_seen. }
    rewrite fmap_app. f_equal.
    + apply list_fmap_ext. intros j fid' Hj. symmetry. apply group_of_snoc_other.
      intros Heq. apply Hout. apply elem_of_first_seen. fold fid in Heq. subst fid'.
      by eapply list_elem_of_lookup_2.
    + simpl. f_equal. unfold group_of.
      rewrite alerts_of_fund_snoc, decide_True by done.
      assert (alerts_of_fund fid raw = []) as ->.
      { apply filter_none, Forall_forall. intros a' Ha' Hfid. apply Hout.
        rewrite <- Hfid. by apply list_elem_of_fmap_2. }
      rewrite app_nil_l. unfold max_streak. simpl.
      f_equal. case_bool_decide; lia.
Qed.

(** ** The stable sort of the groups *)

Lemma StronglySorted_weaken {A} (R1 R2 : relation A) l :
  (∀ x y, R1 x y → R2 x y) → StronglySorted R1 l → StronglySorted R2 l.
Proof.
  intros HR. induction 1 as [|x l Hs IH Hx]; constructor; [done|].
  eapply Forall_impl; [exact Hx|]. intros y. apply HR.
Qed.

Lemma insert_group_perm g l : insert_group g l ≡ₚ g :: l.
Proof.
  induction l as [|h l IH]; simpl; [done|].
  case_bool_decide; [done|]. rewrite IH. apply Permutation_swap.
Qed.

Lemma sort_groups_perm l : sort_groups l ≡ₚ l.
Proof.
  induction l as [|g l IH]; simpl; [done|]. by rewrite insert_group_perm, IH.
Qed.

Lemma earlier_cons l h x y : earlier l x y → earlier (h :: l) x y.
Proof.
  intros [?|[? (i & j & ? & ? & ?)]]; [by left|].
  right. split; [done|]. exists (S i), (S j). simpl. split; [done|]. split; [done|lia].
Qed.

Lemma insert_group_sorted (R : relation AlertGroup.t) g l :
  (∀ x y, R x y →
     AlertGroup.streak_broken y ≤ AlertGroup.streak_broken x) →
  (∀ y, y ∈ l → AlertGroup.streak_broken y ≤ AlertGroup.streak_broken g → R g y) →
  (∀ y, y ∈ l → AlertGroup.streak_broken g < AlertGroup.streak_broken y → R y g) →
  StronglySorted R l → StronglySorted R (insert_group g l).
Proof.
  intros HR Hge Hlt. induction 1 as [|h l Hs IH Hh]; simpl.
  { repeat constructor. }
  case_bool_decide as Hc.
  - constructor; [by constructor|]. apply Forall_forall. intros y Hy.
    apply Hge; [done|]. apply elem_of_cons in Hy as [->|Hy]; [lia|].
    rewrite Forall_forall in Hh. specialize (HR _ _ (Hh y Hy)). lia.
  - constructor.
    + apply IH; intros y Hy; [apply Hge|apply Hlt]; by right.
    + rewrite insert_group_perm. constructor; [|done].
      apply Hlt; [by left|lia].
Qed.

Lemma sort_groups_sorted l :
  NoDup l → StronglySorted (earlier l) (sort_groups l).
Proof.
  induction l as [|g l IH]; intros Hnd; simpl; [constructor|].
  apply NoDup_cons in Hnd as [Hg Hnd].
  apply insert_group_sorted.
  - intros x y [?|[? _]]; lia.
  - intros y Hy Hle. rewrite sort_groups_perm in Hy.
    destruct (Z_lt_le_dec (AlertGroup.streak_broken y) (AlertGroup.streak_broken g));
      [by left|].
    right. split; [lia|]. apply list_elem_of_lookup_1 in Hy as [j Hj].
    exists 0%nat, (S j). simpl. split; [done|]. split; [done|lia].
  - intros y Hy Hlt. by left.
  - eapply StronglySorted_weaken; [|by apply IH]. intros x y. apply earlier_cons.
Qed.

(** ** The groups of the digest *)

Lemma group_of_fund_id names sectors raw (l : list string) :
  AlertGroup.fund_id <$> (group_of names sectors raw <$> l) = l.
Proof.
  rewrite <- list_fmap_compose. etrans; [|apply list_fmap_id].
  by apply list_fmap_ext.
Qed.

Lemma build_alert_list_perm raw names sectors :
  build_alert_list raw names sectors
  ≡ₚ group_of names sectors raw <$> first_seen (Alert.fund_id <$> raw).
Proof. unfold build_alert_list. by rewrite sort_groups_perm, grouped_spec. Qed.

Lemma build_alert_list_fund_ids raw names sectors :
  AlertGroup.fund_id <$> build_alert_list raw names sectors
  ≡ₚ first_seen (Alert.fund_id <$> raw).
Proof. by rewrite build_alert_list_perm, group_of_fund_id. Qed.

Lemma elem_of_build_alert_list raw names sectors g :
  g ∈ build_alert_list raw names sectors ↔
  (∃ a, a ∈ raw ∧ Alert.fund_id a = AlertGroup.fund_id g) ∧
  g = group_of names sectors raw (AlertGroup.fund_id g).
Proof.
  rewrite build_alert_list_perm, list_elem_of_fmap. split.
  - intros (fid & -> & Hfid). apply elem_of_first_seen, list_elem_of_fmap in Hfid
      as (a & -> & Ha). split; [by exists a|done].
  - intros [(a & Ha & Hfid) Hg]. exists (AlertGroup.fund_id g). split; [done|].
    apply elem_of_first_seen. rewrite <- Hfid. by apply list_elem_of_fmap_2.
Qed.

Lemma max_streak_nonneg l : 0 ≤ max_streak l.
Proof.
  induction l as [|a l IH] using rev_ind; [done|].
  rewrite max_streak_snoc. case_bool_decide; lia.
Qed.

Lemma max_streak_ge l a : a ∈ l → Alert.streak_broken a ≤ max_streak l.
Proof.
  induction l as [|b l IH] using rev_ind; [by rewrite elem_of_nil|].
  rewrite elem_of_app, list_elem_of_singleton, max_streak_snoc.
  intros [Ha| ->]; case_bool_decide; try lia; specialize (IH Ha); lia.
Qed.

Lemma max_streak_attained l :
  max_streak l = 0 ∨ ∃ a, a ∈ l ∧ Alert.streak_broken a = max_streak l.
Proof.
  induction l as [|b l IH] using rev_ind; [by left|].
  rewrite max_streak_snoc. case_bool_decide.
  - right. exists b. split; [|done]. apply elem_of_app. right. by apply list_elem_of_singleton.
  - destruct IH as [?|(a & Ha & ?)]; [by left|]. right. exists a. split; [|done].
    apply elem_of_app. by left.
Qed.

(** X12: the digest has exactly one group per fund that has an alert, so
    the number of groups the digest shows is the number of distinct funds
    that [dispatch_digest] puts in the subject line. *)
Theorem digest_one_group_per_fund raw names sectors :
  NoDup (AlertGroup.fund_id <$> build_alert_list raw names sectors) ∧
  (∀ fid, fid ∈ AlertGroup.fund_id <$> build_alert_list raw names sectors ↔
          ∃ a, a ∈ raw ∧ Alert.fund_id a = fid) ∧
  length (build_alert_list raw names sectors) = drop_count raw.
Proof.
  split; [|split].
  - rewrite build_alert_list_fund_ids. apply NoDup_first_seen.
  - intros fid. rewrite build_alert_list_fund_ids, elem_of_first_seen, list_elem_of_fmap.
    split; intros (a & ? & ?); by exists a.
  - rewrite <- (length_fmap AlertGroup.fund_id), build_alert_list_fund_ids.
    unfold drop_count.
    rewrite <- (size_list_to_set (C := gset string)) by apply NoDup_first_seen.
    f_equal. apply set_eq. intros x.
    by rewrite !elem_of_list_to_set, elem_of_first_seen.
Qed.

(** X13: a group of the digest holds the alerts of its fund as drops, in
    input order and at least one; its [streak_broken] is the longest
    streak among them, 0 at least; the fund name is looked up by fund id
    and falls back to the id; the sector is that of the fund's last alert,
    its name falling back to the code. *)
Theorem digest_group_contents raw names sectors g :
  g ∈ build_alert_list raw names sectors →
  let mine := alerts_of_fund (AlertGroup.fund_id g) raw in
  mine ≠ [] ∧
  AlertGroup.drops g = to_drop <$> mine ∧
  0 ≤ AlertGroup.streak_broken g ∧
  (∀ a, a ∈ mine → Alert.streak_broken a ≤ AlertGroup.streak_broken g) ∧
  (AlertGroup.streak_broken g = 0 ∨
   ∃ a, a ∈ mine ∧ Alert.streak_broken a = AlertGroup.streak_broken g) ∧
  AlertGroup.fund_name g =
    default (AlertGroup.fund_id g) (names !! AlertGroup.fund_id g) ∧
  Some (AlertGroup.sector_code g) = Alert.sector_code <$> last mine ∧
  AlertGroup.sector_name g =
    default (AlertGroup.sector_code g) (sectors !! AlertGroup.sector_code g).
Proof.
  intros Hg mine. apply elem_of_build_alert_list in Hg as [(a & Ha & Hfid) Hg].
  assert (mine ≠ []) as Hne.
  { intros Hnil. assert (a ∈ mine) as Hin by by apply list_elem_of_filter.
    rewrite Hnil in Hin. by apply elem_of_nil in Hin. }
  split; [done|]. rewrite Hg. cbn [group_of AlertGroup.drops AlertGroup.streak_broken
    AlertGroup.fund_name AlertGroup.sector_code AlertGroup.sector_name AlertGroup.fund_id].
  fold mine.
  split; [done|]. split; [apply max_streak_nonneg|].
  split; [apply max_streak_ge|]. split; [apply max_streak_attained|].
  split; [done|]. split; [|done].
  destruct (last mine) as [b|] eqn:Hlast; [done|].
  apply last_None in Hlast. done.
Qed.

Lemma digest_group_contents_witness :
  let g := group_at digest_B 0 in
  let mine := alerts_of_fund (AlertGroup.fund_id g) week_alerts in
  mine ≠ [] ∧
  AlertGroup.drops g = to_drop <$> mine ∧
  0 ≤ AlertGroup.streak_broken g ∧
  (∀ a, a ∈ mine → Alert.streak_broken a ≤ AlertGroup.streak_broken g) ∧
  (AlertGroup.streak_broken g = 0 ∨
   ∃ a, a ∈ mine ∧ Alert.streak_broken a = AlertGroup.streak_broken g) ∧
  AlertGroup.fund_name g =
    default (AlertGroup.fund_id g) (fund_names_B !! AlertGroup.fund_id g) ∧
  Some (AlertGroup.sector_code g) = Alert.sector_code <$> last mine ∧
  AlertGroup.sector_name g =
    default (AlertGroup.sector_code g) (sector_names_B !! AlertGroup.sector_code g).
Proof.
  apply (digest_group_contents week_alerts fund_names_B sector_names_B).
  apply (list_elem_of_lookup_2 _ 0). vm_compute. reflexivity.
Defined.

(** The digest of the two sectors: fund "a" with its two drops first, then
    "f17" with the same streak, then "d". *)
Example digest_B_groups :
  (λ g, (AlertGroup.fund_id g, AlertGroup.fund_name g, AlertGroup.sector_name g,
         AlertGroup.streak_broken g, Drop.period_ <$> AlertGroup.drops g))
    <$> digest_B
  = [ ("a", "Alpha Fund", "Sector", 3, [P1m; P6m]);
      ("f17", "Fund Seventeen", "Sector", 3, [P6m]);
      ("d", "d", "Sector", 1, [P6m]) ].
Proof. vm_compute. reflexivity. Qed.

(** ** Every alert is shown once *)

Lemma filter_disjoint_app {A} (P Q : A → Prop)
    `{!∀ a, Decision (P a)} `{!∀ a, Decision (Q a)} `{!∀ a, Decision (P a ∨ Q a)}
    (l : list A) :
  (∀ a, P a → Q a → False) →
  filter P l ++ filter Q l ≡ₚ filter (λ a, P a ∨ Q a) l.
Proof.
  intros Hd. induction l as [|a l IH]; [done|].
  destruct (decide (P a)) as [HP|HP], (decide (Q a)) as [HQ|HQ].
  - destruct (Hd a HP HQ).
  - rewrite (filter_cons_True P), (filter_cons_False Q), (filter_cons_True (λ a, P a ∨ Q a))
      by tauto. simpl. by rewrite IH.
  - rewrite (filter_cons_False P), (filter_cons_True Q), (filter_cons_True (λ a, P a ∨ Q a))
      by tauto. rewrite <- Permutation_middle. by rewrite IH.
  - rewrite (filter_cons_False P), (filter_cons_False Q), (filter_cons_False (λ a, P a ∨ Q a))
      by tauto. done.
Qed.

Lemma partition_by_key {A} (key : A → string) (l : list A) (ks : list string) :
  NoDup ks →
  flat_map (λ k, filter (λ a, key a = k) l) ks ≡ₚ filter (λ a, key a ∈ ks) l.
Proof.
  induction 1 as [|k ks Hk Hnd IH]; simpl.
  { symmetry. rewrite filter_none; [done|]. apply Forall_forall. intros a _.
    apply not_elem_of_nil. }
  rewrite IH.
  rewrite (filter_disjoint_app (λ a, key a = k) (λ a, key a ∈ ks)).
  - apply reflexive_eq, list_filter_iff. intros a. by rewrite elem_of_cons.
  - intros a <- Hin. by apply Hk.
Qed.

Lemma flat_map_fmap_l {A B C} (f : A → B) (g : B → list C) (l : list A) :
  flat_map g (f <$> l) = flat_map (g ∘ f) l.
Proof. induction l as [|a l IH]; simpl; [done|]. f_equal. exact IH. Qed.

Lemma flat_map_fmap_r {A B C} (f : B → C) (g : A → list B) (l : list A) :
  flat_map (λ a, f <$> g a) l = f <$> flat_map g l.
Proof.
  induction l as [|a l IH]; [done|].
  cbn [flat_map]. by rewrite IH, fmap_app.
Qed.

(** X14: the grouping neither loses nor repeats an alert: the drops of the
    digest, each taken with the fund of its group, are the alerts of the
    input, each once. *)
Theorem digest_keeps_every_alert raw names sectors :
  flat_map (λ g, (λ d, (AlertGroup.fund_id g, d)) <$> AlertGroup.drops g)
    (build_alert_list raw names sectors)
  ≡ₚ (λ a, (Alert.fund_id a, to_drop a)) <$> raw.
Proof.
  rewrite build_alert_list_perm, flat_map_fmap_l.
  set (ids := Alert.fund_id <$> raw).
  etrans.
  { apply reflexive_eq.
    apply (flat_map_ext _ (λ fid, (λ a, (Alert.fund_id a, to_drop a))
                                    <$> filter (λ a, Alert.fund_id a = fid) raw)).
    intros fid. unfold compose, group_of. cbn [AlertGroup.fund_id AlertGroup.drops].
    rewrite <- list_fmap_compose. apply list_fmap_ext. intros i a Ha.
    apply list_elem_of_lookup_2, list_elem_of_filter in Ha as [<- _]. done. }
  rewrite flat_map_fmap_r.
  rewrite (partition_by_key Alert.fund_id raw (first_seen ids)) by apply NoDup_first_seen.
  rewrite filter_all; [done|]. apply Forall_forall. intros a Ha.
  apply elem_of_first_seen. by apply list_elem_of_fmap_2.
Qed.

(** ** The order of the digest *)

Lemma first_alert_Some fid raw i :
  first_alert fid raw = Some i ↔
  (∃ a, raw !! i = Some a ∧ Alert.fund_id a = fid) ∧
  ∀ j b, raw !! j = Some b → (j < i)%nat → Alert.fund_id b ≠ fid.
Proof.
  unfold first_alert. split.
  - intros H. apply fmap_Some in H as ([i' a] & H & ->).
    apply list_find_Some in H as (Hi & Hfid & Hmin). simpl. split; [by exists a|].
    intros j b Hj Hlt. by apply (Hmin j b).
  - intros [(a & Hi & Hfid) Hmin]. apply fmap_Some. exists (i, a). split; [|done].
    apply list_find_Some. split; [done|]. split; [done|].
    intros j b Hj Hlt. by apply (Hmin j b).
Qed.

Lemma first_alert_app_l fid raw l i :
  first_alert fid raw = Some i → first_alert fid (raw ++ l) = Some i.
Proof.
  unfold first_alert. intros H. apply fmap_Some in H as ([i' a] & H & ->).
  by rewrite (list_find_app_l _ _ _ _ _ H).
Qed.

Lemma first_alert_elem_of fid raw :
  fid ∈ Alert.fund_id <$> raw →
  ∃ i, first_alert fid raw = Some i ∧ (i < length raw)%nat.
Proof.
  intros Hin. apply list_elem_of_fmap in Hin as (a & -> & Ha).
  destruct (list_find_elem_of (λ b, Alert.fund_id b = Alert.fund_id a) raw a Ha eq_refl)
    as [[i b] Hf].
  exists i. unfold first_alert. rewrite Hf. split; [done|].
  apply list_find_Some in Hf as (Hi & _). by eapply lookup_lt_Some.
Qed.

Lemma first_alert_new raw a :
  Alert.fund_id a ∉ Alert.fund_id <$> raw →
  first_alert (Alert.fund_id a) (raw ++ [a]) = Some (length raw).
Proof.
  intros Hout. apply first_alert_Some. split.
  - exists a. split; [|done]. by rewrite lookup_app_r, Nat.sub_diag by lia.
  - intros j b Hj Hlt Hfid. apply Hout. rewrite <- Hfid.
    apply list_elem_of_fmap_2. rewrite lookup_app_l in Hj by done.
    by eapply list_elem_of_lookup_2.
Qed.

(** [first_seen] lists the funds by the position of their first alert. *)
Lemma first_seen_order raw i j x y :
  first_seen (Alert.fund_id <$> raw) !! i = Some x →
  first_seen (Alert.fund_id <$> raw) !! j = Some y →
  (i < j)%nat →
  ∃ a b, first_alert x raw = Some a ∧ first_alert y raw = Some b ∧ (a < b)%nat.
Proof.
  revert i j x y. induction raw as [|c raw IH] using rev_ind; intros i j x y; [done|].
  rewrite fmap_app. change (Alert.fund_id <$> [c]) with [Alert.fund_id c].
  rewrite first_seen_snoc.
  destruct (decide _) as [Hin|Hout]; intros Hi Hj Hlt.
  - destruct (IH _ _ _ _ Hi Hj Hlt) as (a & b & Ha & Hb & Hab).
    exists a, b. by rewrite !(first_alert_app_l _ _ _ _ Ha), !(first_alert_app_l _ _ _ _ Hb).
  - apply lookup_app_Some in Hj as [Hj|[Hlen Hj]].
    + assert (i < length (first_seen (Alert.fund_id <$> raw)))%nat as Hil
        by (apply lookup_lt_Some in Hj; lia).
      rewrite lookup_app_l in Hi by done.
      destruct (IH _ _ _ _ Hi Hj Hlt) as (a & b & Ha & Hb & Hab).
      exists a, b. by rewrite (first_alert_app_l _ _ _ _ Ha), (first_alert_app_l _ _ _ _ Hb).
    + apply list_lookup_singleton_Some in Hj as [Hj <-].
      rewrite lookup_app_l in Hi by lia.
      apply list_elem_of_lookup_2, elem_of_first_seen, first_alert_elem_of in Hi
        as (a & Ha & Hal).
      exists a, (length raw). split; [by apply first_alert_app_l|].
      split; [by apply first_alert_new|done].
Qed.

(** X15: the digest is in descending order of [streak_broken], and groups
    with the same streak keep the order in which their funds first appear
    among the alerts. *)
Theorem digest_order raw names sectors i j g1 g2 :
  build_alert_list raw names sectors !! i = Some g1 →
  build_alert_list raw names sectors !! j = Some g2 →
  (i < j)%nat →
  AlertGroup.streak_broken g2 ≤ AlertGroup.streak_broken g1 ∧
  (AlertGroup.streak_broken g2 = AlertGroup.streak_broken g1 →
   ∃ a b, first_alert (AlertGroup.fund_id g1) raw = Some a ∧
          first_alert (AlertGroup.fund_id g2) raw = Some b ∧ (a < b)%nat).
Proof.
  intros Hi Hj Hlt. unfold build_alert_list in Hi, Hj.
  set (grouped := foldl (add_alert names sectors) [] raw) in *.
  assert (AlertGroup.fund_id <$> grouped = first_seen (Alert.fund_id <$> raw)) as Hids.
  { unfold grouped. by rewrite grouped_spec, group_of_fund_id. }
  assert (NoDup grouped) as Hnd.
  { apply (NoDup_fmap_1 AlertGroup.fund_id). rewrite Hids. apply NoDup_first_seen. }
  pose proof (StronglySorted_lookup_lt _ _ _ _ _ _ (sort_groups_sorted _ Hnd) Hi Hj Hlt)
    as [Hgt|[Heq (a & b & Ha & Hb & Hab)]].
  { split; [lia|]. intros ?; lia. }
  split; [lia|]. intros _.
  apply (first_seen_order raw a b); [| |done]; rewrite <- Hids, list_lookup_fmap.
  - by rewrite Ha.
  - by rewrite Hb.
Qed.

Lemma digest_order_witness :
  AlertGroup.streak_broken (group_at digest_B 1)
    ≤ AlertGroup.streak_broken (group_at digest_B 0) ∧
  (AlertGroup.streak_broken (group_at digest_B 1)
     = AlertGroup.streak_broken (group_at digest_B 0) →
   ∃ a b, first_alert (AlertGroup.fund_id (group_at digest_B 0)) week_alerts = Some a ∧
          first_alert (AlertGroup.fund_id (group_at digest_B 1)) week_alerts = Some b ∧
          (a < b)%nat).
Proof.
  apply (digest_order week_alerts fund_names_B sector_names_B 0 1).
  - vm_compute. reflexivity.
  - vm_compute. reflexivity.
  - lia.
Defined.

(** ** The digest of one ranked sector *)

Lemma alert_fields sc sn perfs wd prior qt mf res a :
  rank_sector sc sn perfs wd prior qt mf = Ok res →
  a ∈ alerts res →
  Alert.sector_code a = sc ∧ Alert.prev_decile a = 1 ∧
  Alert.streak_broken a = prior_streak prior (Alert.fund_id a) (Alert.period_ a).
Proof.
  intros H Ha.
  assert (mf ≤ Z.of_nat (length perfs)) as Hge.
  { destruct (rank_sector_Ok _ _ _ _ _ _ _ _ H) as [[-> _]|(_ & ? & _)]; [|done].
    by apply elem_of_nil in Ha. }
  destruct (alerts_origin _ _ _ _ _ _ _ _ H Hge a Ha) as (i & perf & q & Hi & Hq).
  apply step_alert_key in Hq as (-> & _ & _).
  unfold drop_alert. cbn [Alert.sector_code Alert.prev_decile
    Alert.streak_broken Alert.fund_id Alert.period_ row_perf row_at].
  split; [done|]. split; [done|]. apply prev_streak_prior.
Qed.

(** X16: in the digest of the alerts of one ranked sector with one record
    per fund, a group carries the sector of the call and between one and
    three drops, one per period at most and in the order 1 month, 3
    months, 6 months; every drop leaves tier 1, and the group's
    [streak_broken] is the longest prior streak among the periods
    dropped, or 0 when none of them is positive. *)
Theorem digest_of_sector sc sn perfs wd prior qt mf res names sectors g :
  rank_sector sc sn perfs wd prior qt mf = Ok res →
  NoDup (Perf.fund_id <$> perfs) →
  g ∈ build_alert_list (alerts res) names sectors →
  AlertGroup.sector_code g = sc ∧
  Drop.period_ <$> AlertGroup.drops g `sublist_of` [P1m; P3m; P6m] ∧
  (1 ≤ length (AlertGroup.drops g) ≤ 3)%nat ∧
  (∀ d, d ∈ AlertGroup.drops g →
     Drop.prev_decile d = 1 ∧
     prior_streak prior (AlertGroup.fund_id g) (Drop.period_ d)
       ≤ AlertGroup.streak_broken g) ∧
  0 ≤ AlertGroup.streak_broken g ∧
  (AlertGroup.streak_broken g = 0 ∨
   ∃ d, d ∈ AlertGroup.drops g ∧
        prior_streak prior (AlertGroup.fund_id g) (Drop.period_ d)
          = AlertGroup.streak_broken g).
Proof.
  intros H Hnd Hg. apply elem_of_build_alert_list in Hg as [(a0 & Ha0 & Hfid0) Hg].
  set (fid := AlertGroup.fund_id g) in *.
  set (mine := alerts_of_fund fid (alerts res)).
  assert (∀ a, a ∈ mine → a ∈ alerts res ∧ Alert.fund_id a = fid) as Hmine.
  { intros a Ha. by apply list_elem_of_filter in Ha as [? ?]. }
  assert (a0 ∈ mine) as Hin0 by by apply list_elem_of_filter.
  assert (AlertGroup.drops g = to_drop <$> mine) as Hdrops by by rewrite Hg.
  assert (AlertGroup.streak_broken g = max_streak mine) as Hstreak by by rewrite Hg.
  assert (Drop.period_ <$> AlertGroup.drops g = Alert.period_ <$> mine) as Hper.
  { rewrite Hdrops, <- list_fmap_compose. done. }
  pose proof (fund_alert_periods _ _ _ _ _ _ _ _ fid H Hnd) as Hsub.
  fold (alerts_of_fund fid (alerts res)) in Hsub. fold mine in Hsub.
  split.
  { rewrite Hg. cbn [group_of AlertGroup.sector_code]. fold mine.
    destruct (last mine) as [b|] eqn:Hlast.
    - apply last_Some_elem_of, Hmine in Hlast as [Hb _]. simpl.
      by destruct (alert_fields _ _ _ _ _ _ _ _ _ H Hb) as (-> & _).
    - apply last_None in Hlast. rewrite Hlast in Hin0. by apply elem_of_nil in Hin0. }
  split; [by rewrite Hper|].
  split.
  { rewrite Hdrops, length_fmap. apply sublist_length in Hsub.
    rewrite length_fmap in Hsub. simpl in Hsub. split; [|done].
    destruct mine; [by apply elem_of_nil in Hin0|simpl; lia]. }
  split.
  - intros d Hd. rewrite Hdrops in Hd. apply list_elem_of_fmap in Hd as (a & -> & Ha).
    destruct (Hmine a Ha) as [Hres Hfid].
    destruct (alert_fields _ _ _ _ _ _ _ _ _ H Hres) as (_ & Hprev & Hs).
    cbn [to_drop Drop.prev_decile Drop.period_]. split; [done|].
    rewrite Hstreak, <- Hfid, <- Hs. by apply max_streak_ge.
  - rewrite Hstreak. split; [apply max_streak_nonneg|]. destruct (max_streak_attained mine) as [?|(a & Ha & Hmax)]; [by left|].
    right. exists (to_drop a). split.
    + rewrite Hdrops. by apply list_elem_of_fmap_2.
    + destruct (Hmine a Ha) as [Hres Hfid].
      destruct (alert_fields _ _ _ _ _ _ _ _ _ H Hres) as (_ & _ & Hs).
      cbn [to_drop Drop.period_]. by rewrite <- Hfid, <- Hs.
Qed.

Lemma digest_of_sector_witness :
  let g := group_at (build_alert_list (alerts result_B) fund_names_B sector_names_B) 0 in
  AlertGroup.sector_code g = "S" ∧
  Drop.period_ <$> AlertGroup.drops g `sublist_of` [P1m; P3m; P6m] ∧
  (1 ≤ length (AlertGroup.drops g) ≤ 3)%nat ∧
  (∀ d, d ∈ AlertGroup.drops g →
     Drop.prev_decile d = 1 ∧
     prior_streak prior_B (AlertGroup.fund_id g) (Drop.period_ d)
       ≤ AlertGroup.streak_broken g) ∧
  0 ≤ AlertGroup.streak_broken g ∧
  (AlertGroup.streak_broken g = 0 ∨
   ∃ d, d ∈ AlertGroup.drops g ∧
        prior_streak prior_B (AlertGroup.fund_id g) (Drop.period_ d)
          = AlertGroup.streak_broken g).
Proof.
  apply (digest_of_sector "S" "Sector" scenario_B "2026-02-16" prior_B 20 5 result_B
           fund_names_B sector_names_B).
  - vm_compute. reflexivity.
  - apply (bool_decide_unpack _). vm_compute. exact I.
  - apply (list_elem_of_lookup_2 _ 0). vm_compute. reflexivity.
Defined.
